(** * Open Source Facebook Photo Downloader: naming utilities and download queue

    A shallow embedding of [lib/utils.js] (the file-name sanitizer and the
    template renderer) and of the service worker that drives the download
    queue, followed by the properties the design document states about them.

    JavaScript strings are embedded as [string]; a character stands for the
    code unit with the same number, so this development covers code units
    below 256 (of the white space of [\s] and [trim], that is tab, line feed,
    vertical tab, form feed, carriage return, space and the no-break space).
    [Date.now()] is an explicit argument [now]; within one callback of the
    worker the clock stands still. *)

From Stdlib Require Import ZArith String Ascii List Bool Lia.
From stdpp Require Import base decidable option list strings pretty gmap.

Local Open Scope Z_scope.

(** ** Strings and the regular expressions of the source *)

Module Js.

Fixpoint in_class (cls : string) (c : ascii) : bool :=
  match cls with
  | EmptyString => false
  | String d cls' => Ascii.eqb c d || in_class cls' c
  end.

Definition code (c : ascii) : N := N_of_ascii c.

Definition dquote : ascii := "034"%char.
Definition backslash : ascii := "092"%char.

(** The class of the light sanitization of token values: the characters
    less-than, greater-than, colon, double quote, slash, backslash, bar,
    question mark and star. *)
Definition is_path_unsafe (c : ascii) : bool :=
  in_class "<>:/|?*" c || Ascii.eqb c dquote || Ascii.eqb c backslash.

(** The class of the sanitizer: the path-unsafe characters, the control
    characters 0 to 31 and 127, and tilde, hash, percent, ampersand, braces,
    dollar, exclamation mark, at sign, backquote, plus and equals. *)
Definition is_invalid_char (c : ascii) : bool :=
  is_path_unsafe c || (code c <=? 31)%N || (code c =? 127)%N
  || in_class "~#%&{}$!@`+=" c.

Definition is_dot (c : ascii) : bool := Ascii.eqb c ".".
Definition is_underscore (c : ascii) : bool := Ascii.eqb c "_".
Definition is_hyphen (c : ascii) : bool := Ascii.eqb c "-".
(** [[-_]] *)
Definition is_separator (c : ascii) : bool := is_hyphen c || is_underscore c.
(** [\s], and the characters [trim] strips *)
Definition is_space (c : ascii) : bool :=
  ((9 <=? code c) && (code c <=? 13))%N || (code c =? 32)%N || (code c =? 160)%N.
Definition is_close_brace (c : ascii) : bool := Ascii.eqb c "}".

(** Length of the longest prefix made of characters of the class. *)
Fixpoint run_length (P : ascii → bool) (s : string) : nat :=
  match s with
  | String c t => if P c then S (run_length P t) else O
  | EmptyString => O
  end.

Fixpoint str_drop (n : nat) (s : string) : string :=
  match n, s with
  | S k, String _ t => str_drop k t
  | _, _ => s
  end.

(** [s.substring(0, n)]: a negative [n] counts as 0, one past the end as the
    length. *)
Definition substring0 (n : Z) (s : string) : string :=
  String.substring 0 (Z.to_nat n) s.

Definition str_nth (n : nat) (s : string) : option ascii := String.get n s.

(** A regular expression is embedded as the function that tells, for a
    position of the input (is it the start? what is left from here?), the
    length of the match the expression finds at that position. None of the
    expressions of the source matches the empty string. *)
Definition matcher : Type := bool → string → option nat.

(** A character class, [[...]]. *)
Definition m_class (P : ascii → bool) : matcher := fun _ s =>
  match s with
  | String c _ => if P c then Some 1%nat else None
  | EmptyString => None
  end.

(** A greedy run of at least [min] characters of a class: [\s+] is
    [m_run is_space 1], [_{2,}] and [__+] are [m_run is_underscore 2]. *)
Definition m_run (P : ascii → bool) (min : nat) : matcher := fun _ s =>
  let n := run_length P s in
  if (Nat.leb min n && Nat.leb 1 n)%bool then Some n else None.

(** [^P+|P+$]: a run at the start of the input, or a run that reaches its
    end. *)
Definition m_edge_runs (P : ascii → bool) : matcher := fun start s =>
  let n := run_length P s in
  if Nat.eqb n 0 then None
  else if start then Some n
  else if Nat.eqb n (String.length s) then Some n
  else None.

(** [{[^}]+}] *)
Definition m_placeholder : matcher := fun _ s =>
  match s with
  | String "{" t =>
      let n := run_length (fun c => negb (is_close_brace c)) t in
      match str_nth n t with
      | Some _ => if Nat.leb 1 n then Some (S (S n)) else None
      | None => None
      end
  | _ => None
  end.

(** A pattern without special characters: it matches itself. *)
Definition m_literal (lit : string) : matcher := fun _ s =>
  if String.prefix lit s then Some (String.length lit) else None.

(** [\.[^.]+$] *)
Definition m_extension : matcher := fun _ s =>
  match s with
  | String "." t =>
      let n := run_length (fun c => negb (is_dot c)) t in
      if (Nat.leb 1 n && Nat.eqb n (String.length t))%bool then Some (S n) else None
  | _ => None
  end.

(** What replaces a match: a function of the input before the match, the
    match and the input after it. *)
Definition replacement : Type := string → string → string → string.

Definition lit (r : string) : replacement := fun _ _ _ => r.

(** [GetSubstitution] for an expression without capture groups: in the
    replacement text [$$] is a dollar, [$&] the match, [$`] what precedes it
    and [$'] what follows it. *)
Fixpoint getSubstitution (template : string) (before matched after : string) : string :=
  match template with
  | EmptyString => EmptyString
  | String c t =>
      if Ascii.eqb c "$" then
        match t with
        | String d t' =>
            if Ascii.eqb d "$" then String "$" (getSubstitution t' before matched after)
            else if Ascii.eqb d "&" then matched +:+ getSubstitution t' before matched after
            else if Ascii.eqb d "`" then before +:+ getSubstitution t' before matched after
            else if Ascii.eqb d "'" then after +:+ getSubstitution t' before matched after
            else String c (getSubstitution t before matched after)
        | EmptyString => String c EmptyString
        end
      else String c (getSubstitution t before matched after)
  end.

(** [s.replace(/re/g, r)]: the input is scanned from the left; where the
    expression matches, the match is replaced and the scan resumes after it
    ([skip] counts the characters of the match still to pass over). *)
Fixpoint replace_from (m : matcher) (r : replacement) (start : bool)
    (before s : string) (skip : nat) : string :=
  match s with
  | EmptyString => EmptyString
  | String c t =>
      match skip with
      | S k => replace_from m r false (before +:+ String c EmptyString) t k
      | O =>
          match m start s with
          | Some (S n) =>
              r before (String.substring 0 (S n) s) (str_drop (S n) s)
                +:+ replace_from m r false (before +:+ String c EmptyString) t n
          | _ => String c (replace_from m r false (before +:+ String c EmptyString) t O)
          end
      end
  end.

Definition replace_all (m : matcher) (r : replacement) (s : string) : string :=
  replace_from m r true EmptyString s O.

(** [s.match(/re/)]: the leftmost match. *)
Fixpoint find_match (m : matcher) (start : bool) (s : string) : option string :=
  match s with
  | EmptyString => None
  | String _ t =>
      match m start s with
      | Some n => Some (String.substring 0 n s)
      | None => find_match m false t
      end
  end.

Fixpoint drop_while (P : ascii → bool) (s : string) : string :=
  match s with
  | String c t => if P c then drop_while P t else s
  | EmptyString => EmptyString
  end.

Fixpoint all_in (P : ascii → bool) (s : string) : bool :=
  match s with
  | String c t => P c && all_in P t
  | EmptyString => true
  end.

Fixpoint drop_trailing (P : ascii → bool) (s : string) : string :=
  match s with
  | String c t => if all_in P s then EmptyString else String c (drop_trailing P t)
  | EmptyString => EmptyString
  end.

(** [s.trim()] *)
Definition trim (s : string) : string :=
  drop_trailing is_space (drop_while is_space s).

(** [s.split('.')[0]] *)
Fixpoint before_first_dot (s : string) : string :=
  match s with
  | String c t => if is_dot c then EmptyString else String c (before_first_dot t)
  | EmptyString => EmptyString
  end.

Definition upper_char (c : ascii) : ascii :=
  if ((97 <=? code c) && (code c <=? 122))%N then ascii_of_N (code c - 32) else c.

Fixpoint upper (s : string) : string :=
  match s with
  | String c t => String (upper_char c) (upper t)
  | EmptyString => EmptyString
  end.

(** [s.padStart(n, '0')] *)
Definition padStart0 (n : Z) (s : string) : string :=
  String.concat EmptyString (repeat "0"%string (Z.to_nat (n - Z.of_nat (String.length s)))) +:+ s.

(** [String(n)] for an integer (below the size from which JavaScript prints
    an exponent). *)
Definition of_int (n : Z) : string := pretty n.

#[global] Arguments of_int : simpl never.

End Js.

(** ** [lib/utils.js] *)

Module Utils.
Import Js.

(** [/^(CON|PRN|AUX|NUL|COM[1-9]|LPT[1-9])$/i] *)
Definition reservedNames (s : string) : bool :=
  let u := upper s in
  match u with
  | String a (String b (String c EmptyString)) =>
      String.eqb u "CON" || String.eqb u "PRN" || String.eqb u "AUX" || String.eqb u "NUL"
  | String a (String b (String c (String d EmptyString))) =>
      (String.eqb (String a (String b (String c EmptyString))) "COM"
       || String.eqb (String a (String b (String c EmptyString))) "LPT")
      && ((49 <=? code d) && (code d <=? 57))%N
  | _ => false
  end.

Definition maxLength : Z := 180.

(** The length limit of [sanitizeFilename]. *)
Definition limit_length (sanitized : string) : string :=
  if maxLength <? Z.of_nat (String.length sanitized) then
    let extension :=
      match find_match m_extension true sanitized with
      | Some e => e
      | None => EmptyString
      end in
    let nameWithoutExtension :=
      if Nat.eqb (String.length extension) 0 then sanitized
      else substring0 (Z.of_nat (String.length sanitized) - Z.of_nat (String.length extension))
             sanitized in
    substring0 (maxLength - Z.of_nat (String.length extension)) nameWithoutExtension
      +:+ extension
  else sanitized.

(** The five replacements at the head of [sanitizeFilename]. *)
Definition replace_invalid (filename : string) : string :=
  replace_all (m_run is_underscore 2) (lit "_")
    (replace_all (m_run is_space 1) (lit "_")
      (replace_all (m_edge_runs is_dot) (lit "_")
        (replace_all (m_run is_dot 2) (lit ".")
          (replace_all (m_class is_invalid_char) (lit "_") filename)))).

(** [sanitizeFilename(filename)] for a string argument; [now] is what
    [Date.now()] returns. *)
Definition sanitizeFilename (now : Z) (filename : string) : string :=
  if Nat.eqb (String.length filename) 0 then "default_filename_" +:+ of_int now
  else
    let sanitized := limit_length (replace_invalid filename) in
    if Nat.eqb (String.length sanitized) 0 || String.eqb sanitized "."
       || String.eqb sanitized ".."
    then "downloaded_file_" +:+ of_int now
    else if reservedNames (before_first_dot sanitized) then "_" +:+ sanitized
    else sanitized.

(** The value of a token: a string, a number, or [null]/[undefined]. *)
Inductive TokenValue : Type :=
| VString (s : string)
| VNumber (n : Z)
| VNullish.

(** [String(v === null || v === undefined ? '' : v)] *)
Definition token_string (v : TokenValue) : string :=
  match v with
  | VString s => s
  | VNumber n => of_int n
  | VNullish => EmptyString
  end.

(** The characters with a meaning of their own in an expression. *)
Definition is_special (c : ascii) : bool :=
  in_class "^$.*+?()[]{}|" c || Ascii.eqb c backslash.

Definition is_numeral_or_comma (c : ascii) : bool :=
  ((48 <=? code c) && (code c <=? 57))%N || Ascii.eqb c ",".

(** The tokens this development follows the loop for. The loop compiles the
    token, between braces, as an expression: a token with a special
    character is matched by what that expression means, and a token that
    reads as a repetition count (digits, with or without a comma) makes the
    compilation throw; a property named [hasOwnProperty] hides the method
    the loop calls. A token made of digits only is also the one kind of key
    the loop would visit ahead of its turn. For every other token the
    expression matches the token between braces and nothing else. *)
Definition plain_token (token : string) : bool :=
  all_in (fun c => negb (is_special c)) token
  && negb (all_in is_numeral_or_comma token && negb (Nat.eqb (String.length token) 0))
  && negb (String.eqb token "hasOwnProperty").

(** The body of the loop for a plain token: its value, lightly sanitized,
    replaces every occurrence of the token between braces. *)
Definition replace_token (result : string) (entry : string * TokenValue) : string :=
  let tokenValue := replace_all (m_class is_path_unsafe) (lit "_") (token_string entry.2) in
  replace_all (m_literal ("{" +:+ entry.1 +:+ "}")) (getSubstitution tokenValue) result.

(** One turn of the loop over the own properties of [data]; [None] once a
    token is not plain. *)
Definition apply_token (result : option string) (entry : string * TokenValue)
    : option string :=
  if plain_token entry.1 then
    match result with
    | Some result => Some (replace_token result entry)
    | None => None
    end
  else None.

(** What follows the loop: the placeholders left are removed, the result is
    trimmed, runs of separators are merged and those at either end dropped;
    an empty result is replaced by a name built on the clock. *)
Definition finish (now : Z) (result : string) : string :=
  let result := trim (replace_all m_placeholder (lit EmptyString) result) in
  let result :=
    replace_all (m_run is_separator 2) (lit "_")
      (replace_all (m_run is_hyphen 2) (lit "-")
        (replace_all (m_run is_underscore 2) (lit "_") result)) in
  let result := replace_all (m_edge_runs is_separator) (lit EmptyString) result in
  if Nat.eqb (String.length result) 0 then "default_name_" +:+ of_int now else result.

(** [applyTokenToFilename(rule, data)]; [data] lists the own properties of the
    object in the order the loop visits them. The result is [None] when a
    token of [data] is not plain: the code then throws or replaces text this
    development does not follow. *)
Definition applyTokenToFilename (now : Z) (rule : string)
    (data : list (string * TokenValue)) : option string :=
  match fold_left apply_token data (Some rule) with
  | Some result => Some (finish now result)
  | None => None
  end.

(** Every token of [data] is plain. *)
Definition plain_tokens (data : list (string * TokenValue)) : bool :=
  forallb (fun entry => plain_token entry.1) data.

#[global] Arguments sanitizeFilename : simpl never.
#[global] Arguments applyTokenToFilename : simpl never.

(** ** Vocabulary of the statements about the renderer and the sanitizer *)

(** [lit] occurs somewhere in [s]. *)
Fixpoint occurs (lit s : string) : bool :=
  String.prefix lit s ||
  match s with
  | String _ t => occurs lit t
  | EmptyString => false
  end.

(** No key of [data] has its placeholder in [rule]. *)
Definition no_token_matches (rule : string) (data : list (string * TokenValue)) : Prop :=
  Forall (fun entry => occurs ("{" +:+ entry.1 +:+ "}") rule = false) data.

(** A template that is nothing but placeholders (a brace, a name that is not
    empty and has no closing brace, a closing brace) and separators. *)
Inductive placeholders_and_separators : string → Prop :=
| pas_empty : placeholders_and_separators EmptyString
| pas_separator c s :
    is_separator c = true →
    placeholders_and_separators s →
    placeholders_and_separators (String c s)
| pas_placeholder name s :
    name ≠ EmptyString →
    all_in (fun c => negb (is_close_brace c)) name = true →
    placeholders_and_separators s →
    placeholders_and_separators ("{" +:+ name +:+ "}" +:+ s).

(** A string that is not empty and whose first character is in the class. *)
Definition head_in (Q : ascii → bool) (s : string) : Prop :=
  match s with
  | String c _ => Q c = true
  | EmptyString => False
  end.

Definition not_dot (c : ascii) : bool := negb (is_dot c).

(** The names the fallback test in the middle of the sanitizer lets through. *)
Definition usable (s : string) : Prop :=
  Nat.eqb (String.length s) 0 || String.eqb s "." || String.eqb s ".." = false.

(** The expression matches at no position of [s]. *)
Fixpoint unmatched (m : matcher) (start : bool) (s : string) : Prop :=
  match s with
  | String _ t => m start s = None ∧ unmatched m false t
  | EmptyString => True
  end.

(** No two characters of the class side by side. *)
Fixpoint no_pair (P : ascii → bool) (s : string) : Prop :=
  match s with
  | String c t =>
      match t with
      | String d _ => P c && P d = false
      | EmptyString => True
      end ∧ no_pair P t
  | EmptyString => True
  end.

(** The string is not empty and its last character is in the class. *)
Fixpoint last_in (P : ascii → bool) (s : string) : bool :=
  match s with
  | String c EmptyString => P c
  | String _ t => last_in P t
  | EmptyString => false
  end.

(** The string is empty or its first character is outside the class. *)
Definition starts_outside (P : ascii → bool) (s : string) : Prop :=
  match s with
  | String c _ => P c = false
  | EmptyString => True
  end.

Definition valid_char (c : ascii) : bool := negb (is_invalid_char c).
Definition not_space (c : ascii) : bool := negb (is_space c).

(** The shape of a name the five replacements of the sanitizer have been
    through: no invalid character, no white space, no two dots and no two
    underscores side by side, no dot at either end. *)
Definition sanitized_form (s : string) : Prop :=
  all_in valid_char s = true
  ∧ all_in not_space s = true
  ∧ no_pair is_dot s
  ∧ no_pair is_underscore s
  ∧ starts_outside is_dot s
  ∧ last_in is_dot s = false.

(** A name of 190 characters: 175 times a, a dot, 10 times b, and [.jpg]. *)
Definition long_name : string :=
  String.concat EmptyString (repeat "a"%string 175) +:+ "."
  +:+ String.concat EmptyString (repeat "b"%string 10) +:+ ".jpg".

End Utils.

(** ** The service worker: job requests and the download queue *)

Module Background.
Import Js Utils.

Record Options : Type := {
  folderNameRule : string;
  fileNameRule : string;
  fileNameIndexPadding : Z;
  imageFormat : string;
  skipDownloaded : bool;
  concurrentDownloads : Z;
  delayBetweenDownloads : Z
}.

Definition defaultOptions : Options := {|
  folderNameRule := "{album_name}";
  fileNameRule := "{index}_{original_name}";
  fileNameIndexPadding := 3;
  imageFormat := "original";
  skipDownloaded := true;
  concurrentDownloads := 3;
  delayBetweenDownloads := 500
|}.

(** A photo as the content script and the resolver hand it over; a missing
    [id] or [originalName] is the empty string. *)
Record Photo : Type := {
  p_id : string;
  p_url : string;
  p_originalName : string
}.

(** What the methods of a [Date] return; [getMonth] counts from 0. *)
Record JsDate : Type := {
  getFullYear : Z;
  getMonth : Z;
  getDate : Z;
  getHours : Z;
  getMinutes : Z;
  getSeconds : Z;
  getTime : Z
}.

Record FormattedDate : Type := {
  fd_YYYY_MM_DD : string;
  fd_MM_DD_YYYY : string;
  fd_DD_MM_YYYY : string
}.

Record QueueItem : Type := {
  q_url : string;
  q_id : string;
  q_originalName : string;
  q_albumName : string;
  q_baseFolderName : string;
  q_index : Z;
  q_tabId : option Z;
  q_options : Options;
  q_date : JsDate;
  q_formattedDate : FormattedDate;
  q_formattedTime : string
}.

(** A download under way: the item, the path [downloadPhoto] computed for it,
    and the delay of the options its batch was dispatched with (the [finally]
    handler closes over them). *)
Record InFlight : Type := {
  f_item : QueueItem;
  f_fullPath : string;
  f_delay : Z
}.

(** How a download under way ends. *)
Inductive Outcome : Type :=
| Saved
| HttpStatus (status : Z)
| FetchRejected (message : string)
| LastError (message : string)
| Blocked.

Inductive PopupMessage : Type :=
| downloadProgress (processed total : Z) (albumName : string)
| downloadComplete (albumName message : string)
| downloadError (error : string)
| downloadCancelled (albumName : string).

(** A job request waiting at one of its [await]s. *)
Inductive Suspended : Type :=
| AwaitOptionsAlbum (albumId nameFromPopup : string) (tabId : option Z)
| AwaitAlbumInfo (albumId nameFromPopup : string) (tabId : option Z) (options : Options)
| AwaitOptionsPhotos (photosArray : list Photo) (collectionName : string) (tabId : option Z).

(** The variables of the worker, what it keeps in [chrome.storage.local], the
    clock, the callbacks the event loop still owes it (downloads under way,
    timers, reads of the options for the queue, suspended job requests), and
    what it has done so far: how many times it has called [getOptions], the
    messages sent to the popup and the paths of the downloads started. *)
Record State : Type := {
  downloadedFileIds : gset string;
  downloadQueue : list QueueItem;
  activeDownloads : Z;
  currentCollectionName : string;
  currentTabId : option Z;
  isCancelled : bool;
  totalPhotosForCurrentJob : Z;
  processedPhotosForCurrentJob : Z;
  storedOptions : Options;
  storedFileIds : gset string;
  clock : JsDate;
  inflight : list InFlight;
  timers : list Z;
  optionsPending : nat;
  suspended : list Suspended;
  asked : nat;
  sent : list PopupMessage;
  started : list string
}.

Definition set_downloadedFileIds (x : gset string) (s : State) : State :=
  Build_State x (downloadQueue s) (activeDownloads s) (currentCollectionName s)
    (currentTabId s) (isCancelled s) (totalPhotosForCurrentJob s)
    (processedPhotosForCurrentJob s) (storedOptions s) (storedFileIds s) (clock s)
    (inflight s) (timers s) (optionsPending s) (suspended s) (asked s) (sent s) (started s).

Definition set_downloadQueue (x : list QueueItem) (s : State) : State :=
  Build_State (downloadedFileIds s) x (activeDownloads s) (currentCollectionName s)
    (currentTabId s) (isCancelled s) (totalPhotosForCurrentJob s)
    (processedPhotosForCurrentJob s) (storedOptions s) (storedFileIds s) (clock s)
    (inflight s) (timers s) (optionsPending s) (suspended s) (asked s) (sent s) (started s).

Definition set_activeDownloads (x : Z) (s : State) : State :=
  Build_State (downloadedFileIds s) (downloadQueue s) x (currentCollectionName s)
    (currentTabId s) (isCancelled s) (totalPhotosForCurrentJob s)
    (processedPhotosForCurrentJob s) (storedOptions s) (storedFileIds s) (clock s)
    (inflight s) (timers s) (optionsPending s) (suspended s) (asked s) (sent s) (started s).

Definition set_currentCollectionName (x : string) (s : State) : State :=
  Build_State (downloadedFileIds s) (downloadQueue s) (activeDownloads s) x (currentTabId s)
    (isCancelled s) (totalPhotosForCurrentJob s) (processedPhotosForCurrentJob s)
    (storedOptions s) (storedFileIds s) (clock s) (inflight s) (timers s) (optionsPending s)
    (suspended s) (asked s) (sent s) (started s).

Definition set_currentTabId (x : option Z) (s : State) : State :=
  Build_State (downloadedFileIds s) (downloadQueue s) (activeDownloads s)
    (currentCollectionName s) x (isCancelled s) (totalPhotosForCurrentJob s)
    (processedPhotosForCurrentJob s) (storedOptions s) (storedFileIds s) (clock s)
    (inflight s) (timers s) (optionsPending s) (suspended s) (asked s) (sent s) (started s).

Definition set_isCancelled (x : bool) (s : State) : State :=
  Build_State (downloadedFileIds s) (downloadQueue s) (activeDownloads s)
    (currentCollectionName s) (currentTabId s) x (totalPhotosForCurrentJob s)
    (processedPhotosForCurrentJob s) (storedOptions s) (storedFileIds s) (clock s)
    (inflight s) (timers s) (optionsPending s) (suspended s) (asked s) (sent s) (started s).

Definition set_totalPhotosForCurrentJob (x : Z) (s : State) : State :=
  Build_State (downloadedFileIds s) (downloadQueue s) (activeDownloads s)
    (currentCollectionName s) (currentTabId s) (isCancelled s) x
    (processedPhotosForCurrentJob s) (storedOptions s) (storedFileIds s) (clock s)
    (inflight s) (timers s) (optionsPending s) (suspended s) (asked s) (sent s) (started s).

Definition set_processedPhotosForCurrentJob (x : Z) (s : State) : State :=
  Build_State (downloadedFileIds s) (downloadQueue s) (activeDownloads s)
    (currentCollectionName s) (currentTabId s) (isCancelled s) (totalPhotosForCurrentJob s) x
    (storedOptions s) (storedFileIds s) (clock s) (inflight s) (timers s) (optionsPending s)
    (suspended s) (asked s) (sent s) (started s).

Definition set_storedOptions (x : Options) (s : State) : State :=
  Build_State (downloadedFileIds s) (downloadQueue s) (activeDownloads s)
    (currentCollectionName s) (currentTabId s) (isCancelled s) (totalPhotosForCurrentJob s)
    (processedPhotosForCurrentJob s) x (storedFileIds s) (clock s) (inflight s) (timers s)
    (optionsPending s) (suspended s) (asked s) (sent s) (started s).

Definition set_storedFileIds (x : gset string) (s : State) : State :=
  Build_State (downloadedFileIds s) (downloadQueue s) (activeDownloads s)
    (currentCollectionName s) (currentTabId s) (isCancelled s) (totalPhotosForCurrentJob s)
    (processedPhotosForCurrentJob s) (storedOptions s) x (clock s) (inflight s) (timers s)
    (optionsPending s) (suspended s) (asked s) (sent s) (started s).

Definition set_clock (x : JsDate) (s : State) : State :=
  Build_State (downloadedFileIds s) (downloadQueue s) (activeDownloads s)
    (currentCollectionName s) (currentTabId s) (isCancelled s) (totalPhotosForCurrentJob s)
    (processedPhotosForCurrentJob s) (storedOptions s) (storedFileIds s) x (inflight s)
    (timers s) (optionsPending s) (suspended s) (asked s) (sent s) (started s).

Definition set_inflight (x : list InFlight) (s : State) : State :=
  Build_State (downloadedFileIds s) (downloadQueue s) (activeDownloads s)
    (currentCollectionName s) (currentTabId s) (isCancelled s) (totalPhotosForCurrentJob s)
    (processedPhotosForCurrentJob s) (storedOptions s) (storedFileIds s) (clock s) x
    (timers s) (optionsPending s) (suspended s) (asked s) (sent s) (started s).

Definition set_timers (x : list Z) (s : State) : State :=
  Build_State (downloadedFileIds s) (downloadQueue s) (activeDownloads s)
    (currentCollectionName s) (currentTabId s) (isCancelled s) (totalPhotosForCurrentJob s)
    (processedPhotosForCurrentJob s) (storedOptions s) (storedFileIds s) (clock s)
    (inflight s) x (optionsPending s) (suspended s) (asked s) (sent s) (started s).

Definition set_optionsPending (x : nat) (s : State) : State :=
  Build_State (downloadedFileIds s) (downloadQueue s) (activeDownloads s)
    (currentCollectionName s) (currentTabId s) (isCancelled s) (totalPhotosForCurrentJob s)
    (processedPhotosForCurrentJob s) (storedOptions s) (storedFileIds s) (clock s)
    (inflight s) (timers s) x (suspended s) (asked s) (sent s) (started s).

Definition set_suspended (x : list Suspended) (s : State) : State :=
  Build_State (downloadedFileIds s) (downloadQueue s) (activeDownloads s)
    (currentCollectionName s) (currentTabId s) (isCancelled s) (totalPhotosForCurrentJob s)
    (processedPhotosForCurrentJob s) (storedOptions s) (storedFileIds s) (clock s)
    (inflight s) (timers s) (optionsPending s) x (asked s) (sent s) (started s).

Definition set_asked (x : nat) (s : State) : State :=
  Build_State (downloadedFileIds s) (downloadQueue s) (activeDownloads s)
    (currentCollectionName s) (currentTabId s) (isCancelled s) (totalPhotosForCurrentJob s)
    (processedPhotosForCurrentJob s) (storedOptions s) (storedFileIds s) (clock s)
    (inflight s) (timers s) (optionsPending s) (suspended s) x (sent s) (started s).

Definition set_sent (x : list PopupMessage) (s : State) : State :=
  Build_State (downloadedFileIds s) (downloadQueue s) (activeDownloads s)
    (currentCollectionName s) (currentTabId s) (isCancelled s) (totalPhotosForCurrentJob s)
    (processedPhotosForCurrentJob s) (storedOptions s) (storedFileIds s) (clock s)
    (inflight s) (timers s) (optionsPending s) (suspended s) (asked s) x (started s).

Definition set_started (x : list string) (s : State) : State :=
  Build_State (downloadedFileIds s) (downloadQueue s) (activeDownloads s)
    (currentCollectionName s) (currentTabId s) (isCancelled s) (totalPhotosForCurrentJob s)
    (processedPhotosForCurrentJob s) (storedOptions s) (storedFileIds s) (clock s)
    (inflight s) (timers s) (optionsPending s) (suspended s) (asked s) (sent s) x.

(** The worker as it is loaded: nothing queued, nothing under way; the ledger
    is what storage holds. *)
Definition initial (ids : gset string) (options : Options) (now : JsDate) : State := {|
  downloadedFileIds := ids;
  downloadQueue := [];
  activeDownloads := 0;
  currentCollectionName := EmptyString;
  currentTabId := None;
  isCancelled := false;
  totalPhotosForCurrentJob := 0;
  processedPhotosForCurrentJob := 0;
  storedOptions := options;
  storedFileIds := ids;
  clock := now;
  inflight := [];
  timers := [];
  optionsPending := 0;
  suspended := [];
  asked := 0;
  sent := [];
  started := []
|}.

(** How a call ends: it returns, or it throws an error with a message. The
    variables are as the call left them either way. *)
Inductive Result : Type :=
| Returned (s : State)
| Thrown (message : string) (s : State).

(** The rest of a function after a call that may throw. *)
Definition and_then (r : Result) (rest : State → Result) : Result :=
  match r with
  | Returned s => rest s
  | Thrown message s => Thrown message s
  end.

(** The worker after a callback of the event loop whose error, if any, no
    handler catches. *)
Definition ending (r : Result) : State :=
  match r with
  | Returned s => s
  | Thrown _ s => s
  end.

(** [isDownloading = value]. The worker is a module (it opens with [import]),
    which makes it strict code, and it declares [isDownloading] nowhere: the
    assignment throws a [ReferenceError] and assigns nothing. *)
Definition assign_isDownloading (value : bool) (s : State) : Result :=
  Thrown "isDownloading is not defined" s.

(** Truth value of a tab id: [null], [undefined] and 0 are false. *)
Definition truthy_tab (t : option Z) : bool :=
  match t with
  | Some n => negb (n =? 0)
  | None => false
  end.

Definition notifyPopup (msg : PopupMessage) (s : State) : State :=
  if truthy_tab (currentTabId s) then set_sent (sent s ++ [msg]) s else s.

Definition saveDownloadedFileIds (s : State) : State :=
  set_storedFileIds (downloadedFileIds s) s.

(** [a || b] on strings. *)
Definition or_else (a b : string) : string :=
  if Nat.eqb (String.length a) 0 then b else a.

Definition pad2 (n : Z) : string := padStart0 2 (of_int n).

Definition formatDate (date : JsDate) : FormattedDate := {|
  fd_YYYY_MM_DD :=
    of_int (getFullYear date) +:+ "-" +:+ pad2 (getMonth date + 1) +:+ "-" +:+ pad2 (getDate date);
  fd_MM_DD_YYYY :=
    pad2 (getMonth date + 1) +:+ "-" +:+ pad2 (getDate date) +:+ "-" +:+ of_int (getFullYear date);
  fd_DD_MM_YYYY :=
    pad2 (getDate date) +:+ "-" +:+ pad2 (getMonth date + 1) +:+ "-" +:+ of_int (getFullYear date)
|}.

Definition formatTime (date : JsDate) : string :=
  pad2 (getHours date) +:+ "-" +:+ pad2 (getMinutes date) +:+ "-" +:+ pad2 (getSeconds date).

(** A call of [getOptions()] whose answer [waiting] awaits. *)
Definition getOptions (waiting : Suspended) (s : State) : State :=
  set_suspended (suspended s ++ [waiting]) (set_asked (S (asked s)) s).

(** The tokens of the folder name. *)
Definition folderTokens (collectionName : string) (date : JsDate) : list (string * TokenValue) :=
  let fd := formatDate date in
  [ ("album_name", VString collectionName);
    ("owner_name", VString "FacebookUser");
    ("date_YYYY-MM-DD", VString (fd_YYYY_MM_DD fd));
    ("date_MM-DD-YYYY", VString (fd_MM_DD_YYYY fd));
    ("date_DD-MM-YYYY", VString (fd_DD_MM_YYYY fd));
    ("timestamp_unix", VNumber (getTime date `div` 1000));
    ("year", VNumber (getFullYear date));
    ("month", VString (pad2 (getMonth date + 1)));
    ("day", VString (pad2 (getDate date))) ].

(** The tokens of a file name, in [downloadPhoto]; the padding is
    [fileNameIndexPadding || 3]. *)
Definition fileTokens (item : QueueItem) : list (string * TokenValue) :=
  let padding :=
    if fileNameIndexPadding (q_options item) =? 0 then 3
    else fileNameIndexPadding (q_options item) in
  [ ("index", VString (padStart0 padding (of_int (q_index item))));
    ("index_raw", VString (of_int (q_index item)));
    ("original_name", VString (q_originalName item));
    ("photo_id", VString (q_id item));
    ("album_name", VString (q_albumName item));
    ("timestamp_unix", VNumber (getTime (q_date item) `div` 1000));
    ("date_YYYY-MM-DD", VString (fd_YYYY_MM_DD (q_formattedDate item)));
    ("time_HH-MM-SS", VString (q_formattedTime item));
    ("year", VNumber (getFullYear (q_date item)));
    ("month", VString (pad2 (getMonth (q_date item) + 1)));
    ("day", VString (pad2 (getDate (q_date item))));
    ("hour", VString (pad2 (getHours (q_date item))));
    ("minute", VString (pad2 (getMinutes (q_date item))));
    ("second", VString (pad2 (getSeconds (q_date item)))) ].

(** The path [downloadPhoto] saves the item under; [None] as for
    [applyTokenToFilename]. *)
Definition fullPath (now : Z) (item : QueueItem) : option string :=
  match applyTokenToFilename now (fileNameRule (q_options item)) (fileTokens item) with
  | Some fileName =>
      let sanitizedFilename := sanitizeFilename now fileName in
      Some (if Nat.eqb (String.length (q_baseFolderName item)) 0 then sanitizedFilename
            else q_baseFolderName item +:+ "/" +:+ sanitizedFilename)
  | None => None
  end.

#[global] Arguments fullPath : simpl never.

(** [startProcessingQueue()]. Each of its three branches starts with an
    assignment to [isDownloading]; what follows the assignment in the source
    follows it here. In the last branch [getOptions()] is called and the
    dispatch, [processBatch] below, is left for its answer. *)
Definition startProcessingQueue (s : State) : Result :=
  if isCancelled s then
    and_then (assign_isDownloading false s) (fun s =>
      Returned (set_activeDownloads 0 (set_downloadQueue [] s)))
  else if (Nat.eqb (length (downloadQueue s)) 0 && (activeDownloads s =? 0))%bool then
    and_then (assign_isDownloading false s) (fun s =>
      if 0 <? totalPhotosForCurrentJob s then
        Returned
          (notifyPopup (downloadComplete (currentCollectionName s) "All downloads processed.") s)
      else Returned s)
  else
    and_then (assign_isDownloading true s) (fun s =>
      Returned (set_optionsPending (S (optionsPending s)) (set_asked (S (asked s)) s))).

(** The [finally] handler of a dispatched download. *)
Definition settled (item : QueueItem) (delay : Z) (s : State) : Result :=
  let s := set_activeDownloads (activeDownloads s - 1) s in
  let s := set_processedPhotosForCurrentJob (processedPhotosForCurrentJob s + 1) s in
  let s :=
    notifyPopup
      (downloadProgress (processedPhotosForCurrentJob s) (totalPhotosForCurrentJob s)
         (q_albumName item)) s in
  if negb (isCancelled s) then Returned (set_timers (timers s ++ [delay]) s)
  else if ((activeDownloads s =? 0) && Nat.eqb (length (downloadQueue s)) 0)%bool then
    assign_isDownloading false s
  else Returned s.

(** [downloadPhoto(item)] up to its first [await]: the download is under
    way, unless the job is cancelled or the file name cannot be rendered;
    the promise is then settled at once (the item joins [resolved], whose
    [finally] handlers run when the current callback is over). *)
Definition downloadPhoto (item : QueueItem) (delay : Z) (st : State * list (QueueItem * Z))
    : State * list (QueueItem * Z) :=
  let (s, resolved) := st in
  if isCancelled s then (s, resolved ++ [(item, delay)])
  else
    match fullPath (getTime (clock s)) item with
    | Some path =>
        (set_inflight
           (inflight s ++ [ {| f_item := item; f_fullPath := path; f_delay := delay |} ]) s,
         resolved)
    | None => (s, resolved ++ [(item, delay)])
    end.

(** The [while] loop of the dispatch; [queue] is [downloadQueue], one item
    shorter at every turn. *)
Fixpoint dispatch (options : Options) (queue : list QueueItem)
    (st : State * list (QueueItem * Z)) : State * list (QueueItem * Z) :=
  match queue with
  | [] => st
  | item :: rest =>
      if activeDownloads st.1 <? concurrentDownloads options then
        if isCancelled st.1 then st
        else
          let s := set_downloadQueue rest st.1 in
          let s := set_activeDownloads (activeDownloads s + 1) s in
          dispatch options rest (downloadPhoto item (delayBetweenDownloads options) (s, st.2))
      else st
  end.

(** The test that follows the loop. *)
Definition afterDispatch (s : State) : Result :=
  if (Nat.eqb (length (downloadQueue s)) 0 && (activeDownloads s =? 0)
      && negb (isCancelled s))%bool then
    and_then (assign_isDownloading false s) (fun s =>
      if ((0 <? totalPhotosForCurrentJob s)
          && (totalPhotosForCurrentJob s <=? processedPhotosForCurrentJob s))%bool then
        Returned
          (notifyPopup (downloadComplete (currentCollectionName s) "All downloads processed.") s)
      else Returned s)
  else Returned s.

(** The callback [startProcessingQueue] passes to [optionsPromise.then], and
    the [finally] handlers of the promises settled in its course. *)
Definition processBatch (options : Options) (s : State) : State :=
  let (s, resolved) := dispatch options (downloadQueue s) (s, []) in
  fold_left (fun s r => ending (settled r.1 r.2 s)) resolved (ending (afterDispatch s)).

(** The queue items of [processPhotosDownload]; [index] counts from 0. The
    sanitizer reads the clock for an empty name only, which the folder name
    never is. *)
Fixpoint queueItems (now : Z) (baseFolderName collectionName : string) (tabId : option Z)
    (options : Options) (date : JsDate) (index : Z) (photos : list Photo) : list QueueItem :=
  match photos with
  | [] => []
  | photo :: rest =>
      {| q_url := p_url photo;
         q_id := p_id photo;
         q_originalName :=
           or_else (p_originalName photo)
             (or_else (p_id photo) ("photo_" +:+ of_int index) +:+ ".jpg");
         q_albumName := collectionName;
         q_baseFolderName := sanitizeFilename now baseFolderName;
         q_index := index + 1;
         q_tabId := tabId;
         q_options := options;
         q_date := date;
         q_formattedDate := formatDate date;
         q_formattedTime := formatTime date |}
      :: queueItems now baseFolderName collectionName tabId options date (index + 1) rest
  end.

(** [processPhotosDownload] once it has its options. The tokens of the
    folder name are plain, so that the folder name is rendered and the last
    branch is never taken. The call ends the way [startProcessingQueue]
    ends: an error thrown there rejects the promise of the request. *)
Definition queuePhotos (photosArray : list Photo) (collectionName : string)
    (tabId : option Z) (options : Options) (s : State) : Result :=
  let s := set_totalPhotosForCurrentJob (Z.of_nat (length photosArray)) s in
  let s := set_processedPhotosForCurrentJob 0 s in
  let s := notifyPopup (downloadProgress 0 (totalPhotosForCurrentJob s) collectionName) s in
  let photosToQueue :=
    if skipDownloaded options then
      filter (fun photo => p_id photo ∉ downloadedFileIds s) photosArray
    else photosArray in
  if Nat.eqb (length photosToQueue) 0 then
    Returned
      (notifyPopup
         (downloadComplete collectionName
            "All photos already downloaded or collection is empty.") s)
  else
    let s := set_totalPhotosForCurrentJob (Z.of_nat (length photosToQueue)) s in
    if totalPhotosForCurrentJob s =? 0 then
      Returned (notifyPopup (downloadComplete collectionName "All photos already downloaded.") s)
    else
      let s := notifyPopup (downloadProgress 0 (totalPhotosForCurrentJob s) collectionName) s in
      let date := clock s in
      let now := getTime date in
      match
        applyTokenToFilename now (folderNameRule options) (folderTokens collectionName date)
      with
      | Some baseFolderName =>
          let s :=
            set_downloadQueue
              (queueItems now baseFolderName collectionName tabId options date 0 photosToQueue)
              s in
          startProcessingQueue s
      | None => Thrown EmptyString s
      end.

(** [processPhotosDownload(photosArray, collectionName, tabId, customOptions)]:
    without [customOptions] it waits for [getOptions()]. *)
Definition processPhotosDownload (photosArray : list Photo) (collectionName : string)
    (tabId : option Z) (customOptions : option Options) (s : State) : Result :=
  if isCancelled s then Returned s
  else
    match customOptions with
    | Some options => queuePhotos photosArray collectionName tabId options s
    | None => Returned (getOptions (AwaitOptionsPhotos photosArray collectionName tabId) s)
    end.

(** The [catch] the message handler puts on the promise of a request: the
    popup is told the message of the error. *)
Definition reported (r : Result) : State :=
  match r with
  | Returned s => s
  | Thrown message s => notifyPopup (downloadError message) s
  end.

(** What [getPhotoUrlsForAlbum] comes back with. *)
Inductive AlbumResult : Type :=
| AlbumFound (albumName : string) (photos : list Photo)
| AlbumMissing
| AlbumFailed (message : string).

(** [processAlbumDownload] after its second [await]; an error thrown from
    there on, be it by the resolver or by [processPhotosDownload], is caught
    by the function itself. *)
Definition albumResolved (tabId : option Z) (options : Options) (r : AlbumResult)
    (s : State) : State :=
  let caught (message : string) (s : State) : State :=
    if isCancelled s then s
    else notifyPopup (downloadError ("Failed to fetch album: " +:+ message)) s in
  match r with
  | AlbumFound albumName photos =>
      if isCancelled s then s
      else if Nat.eqb (length photos) 0 then
        notifyPopup
          (downloadError "No photos found in the album or unable to retrieve album details.") s
      else
        let s := set_currentCollectionName albumName s in
        match processPhotosDownload photos (currentCollectionName s) tabId (Some options) s with
        | Returned s => s
        | Thrown message s => caught message s
        end
  | AlbumMissing =>
      if isCancelled s then s
      else
        notifyPopup
          (downloadError "No photos found in the album or unable to retrieve album details.") s
  | AlbumFailed message => caught message s
  end.

(** The body of the promise of [downloadPhoto] from the moment the fetch or
    the download callback decides the outcome, followed by the [finally]
    handler. *)
Definition complete (d : InFlight) (o : Outcome) (s : State) : State :=
  let item := f_item d in
  let caught (message : string) (s : State) : State :=
    if isCancelled s then s
    else
      notifyPopup
        (downloadError
           ("Failed to download " +:+ q_originalName item +:+ ": " +:+ substring0 100 message)) s in
  let s :=
    match o with
    | Saved =>
        let s := set_started (started s ++ [f_fullPath d]) s in
        let s := set_downloadedFileIds ({[ q_id item ]} ∪ downloadedFileIds s) s in
        saveDownloadedFileIds s
    | HttpStatus status =>
        caught ("HTTP error! status: " +:+ of_int status +:+ " for " +:+ q_originalName item) s
    | FetchRejected message => caught message s
    | LastError message =>
        notifyPopup
          (downloadError
             ("Failed for " +:+ q_originalName item +:+ ": " +:+ substring0 100 message)) s
    | Blocked =>
        notifyPopup
          (downloadError
             ("Download for " +:+ q_originalName item +:+ " was blocked or failed to start.")) s
    end in
  ending (settled item (f_delay d) s).

(** What happens to the worker: the messages of the popup, the options page
    saving, the clock moving on, and the callbacks of the event loop. *)
Inductive Input : Type :=
| DownloadAlbum (albumId : string) (tabId : option Z) (albumName : string)
| DownloadPhotosFromPost (photoIds : list Photo) (postId : string) (tabId : option Z)
| DownloadSinglePhoto (photoUrl photoId : string) (tabId : option Z) (originalName : string)
| CancelDownload
| SaveOptions (options : Options)
| Tick (now : JsDate)
| JobOptionsRead (j : nat)
| AlbumInfoArrived (j : nat) (r : AlbumResult)
| QueueOptionsRead
| Settled (i : nat) (o : Outcome)
| TimerFired (k : nat).

(** The message handler and the callbacks. [DownloadSinglePhoto] carries the
    name [getOriginalNameFromUrl] gives for the URL. A callback that is not
    owed has no step. *)
Definition step (s : State) (i : Input) : option State :=
  match i with
  | DownloadAlbum albumId tabId nameFromPopup =>
      let s := set_currentTabId tabId s in
      let s := set_isCancelled false s in
      let s := set_currentCollectionName (or_else nameFromPopup ("album_" +:+ albumId)) s in
      Some (getOptions (AwaitOptionsAlbum albumId nameFromPopup tabId) s)
  | DownloadPhotosFromPost photoIds postId tabId =>
      let s := set_currentTabId tabId s in
      let s := set_isCancelled false s in
      let s :=
        set_currentCollectionName ("post_" +:+ or_else postId (of_int (getTime (clock s)))) s in
      Some (reported (processPhotosDownload photoIds (currentCollectionName s) tabId None s))
  | DownloadSinglePhoto photoUrl photoId tabId originalName =>
      let s := set_currentTabId tabId s in
      let s := set_isCancelled false s in
      let s :=
        set_currentCollectionName ("photo_" +:+ or_else photoId (of_int (getTime (clock s)))) s in
      let photoObject := {| p_id := photoId; p_url := photoUrl; p_originalName := originalName |} in
      Some (reported (processPhotosDownload [photoObject] (currentCollectionName s) tabId None s))
  | CancelDownload =>
      let s := set_isCancelled true s in
      let s := set_downloadQueue [] s in
      Some (notifyPopup (downloadCancelled (currentCollectionName s)) s)
  | SaveOptions options => Some (set_storedOptions options s)
  | Tick now => Some (set_clock now s)
  | JobOptionsRead j =>
      match suspended s !! j with
      | Some (AwaitOptionsAlbum albumId nameFromPopup tabId) =>
          let options := storedOptions s in
          let s := set_totalPhotosForCurrentJob 0 s in
          let s := set_processedPhotosForCurrentJob 0 s in
          Some (set_suspended
                  (delete j (suspended s) ++ [AwaitAlbumInfo albumId nameFromPopup tabId options]) s)
      | Some (AwaitOptionsPhotos photosArray collectionName tabId) =>
          let options := storedOptions s in
          Some (reported
                  (queuePhotos photosArray collectionName tabId options
                     (set_suspended (delete j (suspended s)) s)))
      | _ => None
      end
  | AlbumInfoArrived j r =>
      match suspended s !! j with
      | Some (AwaitAlbumInfo albumId nameFromPopup tabId options) =>
          Some (albumResolved tabId options r (set_suspended (delete j (suspended s)) s))
      | _ => None
      end
  | QueueOptionsRead =>
      match optionsPending s with
      | S n => Some (processBatch (storedOptions s) (set_optionsPending n s))
      | O => None
      end
  | Settled i o =>
      match inflight s !! i with
      | Some d => Some (complete d o (set_inflight (delete i (inflight s)) s))
      | None => None
      end
  | TimerFired k =>
      match timers s !! k with
      | Some _ => Some (ending (startProcessingQueue (set_timers (delete k (timers s)) s)))
      | None => None
      end
  end.

Fixpoint run (s : State) (inputs : list Input) : option State :=
  match inputs with
  | [] => Some s
  | i :: rest =>
      match step s i with
      | Some s' => run s' rest
      | None => None
      end
  end.

(** A message that starts a job. *)
Definition starts_job (i : Input) : bool :=
  match i with
  | DownloadAlbum _ _ _ | DownloadPhotosFromPost _ _ _ | DownloadSinglePhoto _ _ _ _ => true
  | _ => false
  end.

(** Nothing queued and nothing owed: the worker between two jobs. *)
Definition quiescent (s : State) : Prop :=
  downloadQueue s = [] ∧ inflight s = [] ∧ timers s = [] ∧ optionsPending s = O
  ∧ suspended s = [].

Definition is_complete (m : PopupMessage) : bool :=
  match m with downloadComplete _ _ => true | _ => false end.
Definition is_cancelled (m : PopupMessage) : bool :=
  match m with downloadCancelled _ => true | _ => false end.
Definition is_error (m : PopupMessage) : bool :=
  match m with downloadError _ => true | _ => false end.
Definition is_progress (m : PopupMessage) : bool :=
  match m with downloadProgress _ _ _ => true | _ => false end.

(** ** Vocabulary of the statements about the worker *)

(** A job, with what the resolver finds for an album. *)
Inductive Job : Type :=
| AlbumJob (albumId : string) (tabId : option Z) (nameFromPopup albumName : string)
    (photos : list Photo)
| PostJob (photoIds : list Photo) (postId : string) (tabId : option Z)
| SingleJob (photoUrl photoId : string) (tabId : option Z) (originalName : string).

(** The request of a job and the callbacks that take it to the queue, with
    nothing else in between. *)
Definition request (j : Job) : list Input :=
  match j with
  | AlbumJob albumId tabId nameFromPopup albumName photos =>
      [DownloadAlbum albumId tabId nameFromPopup; JobOptionsRead 0;
       AlbumInfoArrived 0 (AlbumFound albumName photos)]
  | PostJob photoIds postId tabId =>
      [DownloadPhotosFromPost photoIds postId tabId; JobOptionsRead 0]
  | SingleJob photoUrl photoId tabId originalName =>
      [DownloadSinglePhoto photoUrl photoId tabId originalName; JobOptionsRead 0]
  end.

Definition job_photos (j : Job) : list Photo :=
  match j with
  | AlbumJob _ _ _ _ photos => photos
  | PostJob photoIds _ _ => photoIds
  | SingleJob photoUrl photoId _ originalName =>
      [ {| p_id := photoId; p_url := photoUrl; p_originalName := originalName |} ]
  end.

Definition job_tab (j : Job) : option Z :=
  match j with
  | AlbumJob _ tabId _ _ _ | PostJob _ _ tabId | SingleJob _ _ tabId _ => tabId
  end.

(** The collection name the job runs under, at the time [now]. *)
Definition job_name (now : Z) (j : Job) : string :=
  match j with
  | AlbumJob _ _ _ albumName _ => albumName
  | PostJob _ postId _ => "post_" +:+ or_else postId (of_int now)
  | SingleJob _ photoId _ _ => "photo_" +:+ or_else photoId (of_int now)
  end.

(** The resolver finds the album of an album job, with a photo in it. *)
Definition resolved (j : Job) : Prop :=
  match j with
  | AlbumJob _ _ _ _ photos => photos ≠ []
  | _ => True
  end.

(** An input in the course of a job: no request of another job. *)
Definition same_job (i : Input) : Prop := starts_job i = false.

(** No callback is owed: no download under way, no timer, no read of the
    options, no request at one of its waits. *)
Definition idle (s : State) : Prop :=
  inflight s = [] ∧ timers s = [] ∧ optionsPending s = O ∧ suspended s = [].

(** The messages that end a job for the popup. *)
Definition terminal (m : PopupMessage) : bool :=
  is_complete m || is_cancelled m || is_error m.

(** The error every call of [startProcessingQueue] ends with. *)
Definition not_defined : string := "isDownloading is not defined".

(** The message the popup gets when the request of job [j] ends with the
    error [message]: an album job puts its own words before it. *)
Definition job_error (j : Job) (message : string) : string :=
  match j with
  | AlbumJob _ _ _ _ _ => "Failed to fetch album: " +:+ message
  | _ => message
  end.



(** The worker when the request of job [j] is about to queue its photos. *)
Definition prepared (j : Job) (s : State) : State :=
  let s := set_currentTabId (job_tab j) s in
  let s := set_isCancelled false s in
  let s := set_currentCollectionName (job_name (getTime (clock s)) j) s in
  let s := set_asked (S (asked s)) s in
  let s :=
    match j with
    | AlbumJob _ _ _ _ _ =>
        set_processedPhotosForCurrentJob 0 (set_totalPhotosForCurrentJob 0 s)
    | _ => s
    end in
  set_suspended [] s.

(** The examples below run on this clock and these photos. *)
Definition noon : JsDate := {|
  getFullYear := 2024; getMonth := 0; getDate := 5;
  getHours := 12; getMinutes := 0; getSeconds := 0;
  getTime := 1704456000000
|}.


Definition photo (name : string) : Photo := {|
  p_id := name;
  p_url := "https://scontent.example/" +:+ name +:+ ".jpg";
  p_originalName := name +:+ ".jpg"
|}.

End Background.

(** * The rest of [lib/utils.js], the options page and the scraper

    Further definitions: the vocabulary of more statements about the
    renderer and the worker, [getOriginalNameFromUrl] with the expressions
    and the decoding it relies on, [saveOptions] of the options page, and the
    part of the scraper of the resolver that needs no page. *)

(** ** Vocabulary of further statements about the renderer *)

Module Rules.
Import Js Utils.

Definition is_open_brace (c : ascii) : bool := Ascii.eqb c "{".

(** A rule without placeholder: it has no opening brace. *)
Definition no_placeholder (rule : string) : Prop :=
  all_in (fun c => negb (is_open_brace c)) rule = true.

(** No separator at either end and no two separators side by side. *)
Definition separated (s : string) : Prop :=
  starts_outside is_separator s ∧ last_in is_separator s = false ∧ no_pair is_separator s.

(** No white space at either end. *)
Definition trimmed (s : string) : Prop :=
  starts_outside is_space s ∧ last_in is_space s = false.

End Rules.

(** ** Expressions matched with backtracking *)

Module Regex.
Import Js.

(** The expressions that [getOriginalNameFromUrl] anchors at the head of a
    path: a character of a class, a greedy run of one character of a class
    or more, a sequence, a greedy option. *)
Inductive re : Type :=
| Cls (P : ascii → bool)
| Run (P : ascii → bool)
| Seq (a b : re)
| Opt (a : re).

(** What can follow a run at the head of [s]; the longest run first. *)
Fixpoint runs (P : ascii → bool) (s : string) : list string :=
  match s with
  | String c t => if P c then runs P t ++ [t] else []
  | EmptyString => []
  end.

(** What can follow a match of [r] at the head of [s], in the order the
    engine tries: a greedy choice first, what it falls back to after it. *)
Fixpoint matches (r : re) (s : string) : list string :=
  match r with
  | Cls P =>
      match s with
      | String c t => if P c then [t] else []
      | EmptyString => []
      end
  | Run P => runs P s
  | Seq a b => matches a s ≫= matches b
  | Opt a => matches a s ++ [s]
  end.

(** The match the engine settles on: the first. *)
Definition match_at (r : re) (s : string) : option string := head (matches r s).

(** [s.replace(/^r/, '')] *)
Definition strip (r : re) (s : string) : string :=
  match match_at r s with
  | Some rest => rest
  | None => s
  end.

Definition is_digit (c : ascii) : bool := ((48 <=? code c) && (code c <=? 57))%N.
Definition is_slash (c : ascii) : bool := Ascii.eqb c "/".

(** An expression whose last character is a slash. *)
Fixpoint closes_segment (r : re) : Prop :=
  match r with
  | Seq _ b => closes_segment b
  | Cls P => ∀ c, P c = true → c = "/"%char
  | _ => False
  end.

End Regex.

(** ** [getOriginalNameFromUrl] of [lib/utils.js] *)

Module OriginalName.
Import Js Utils Regex.

#[local] Infix "⋅" := Seq (at level 60, right associativity).

(** What [new URL(urlString)] gives of the address: the path, and the
    parameters of the query as [URLSearchParams] lists them. *)
Record URL : Type := {
  pathname : string;
  searchParams : list (string * string)
}.

(** [searchParams.get(name)]: the first value under the name, or [null]. *)
Fixpoint get (name : string) (params : list (string * string)) : option string :=
  match params with
  | [] => None
  | (k, v) :: rest => if String.eqb k name then Some v else get name rest
  end.

(** [s.split(c)] for a separator of one character. *)
Fixpoint split (sep : ascii) (s : string) : list string :=
  match s with
  | EmptyString => [EmptyString]
  | String c t =>
      if Ascii.eqb c sep then EmptyString :: split sep t
      else
        match split sep t with
        | x :: rest => String c x :: rest
        | [] => [String c EmptyString]
        end
  end.

Definition includes (part s : string) : bool := occurs part s.
Definition startsWith (part s : string) : bool := String.prefix part s.
Definition endsWith (part s : string) : bool :=
  Nat.leb (String.length part) (String.length s)
  && String.eqb (str_drop (String.length s - String.length part) s) part.

(** [toLowerCase] on a code unit below 256: the letters A to Z, and the
    letters from 192 to 222 but for the multiplication sign. *)
Definition lower_char (c : ascii) : ascii :=
  if (((65 <=? code c) && (code c <=? 90))
      || ((192 <=? code c) && (code c <=? 222) && negb (code c =? 215)))%N
  then ascii_of_N (code c + 32) else c.

Fixpoint toLowerCase (s : string) : string :=
  match s with
  | String c t => String (lower_char c) (toLowerCase t)
  | EmptyString => EmptyString
  end.

(** [/^\/[vtf]\d+(\.\d+-\d+)?(\.\d+)?\//] *)
Definition cdn_version : re :=
  Cls is_slash ⋅ Cls (in_class "vtf") ⋅ Run is_digit
  ⋅ Opt (Cls is_dot ⋅ Run is_digit ⋅ Cls is_hyphen ⋅ Run is_digit)
  ⋅ Opt (Cls is_dot ⋅ Run is_digit) ⋅ Cls is_slash.

(** [/^\/p\d+x\d+\//] and [/^\/s\d+x\d+\//] *)
Definition cdn_size (letter : ascii) : re :=
  Cls is_slash ⋅ Cls (Ascii.eqb letter) ⋅ Run is_digit ⋅ Cls (Ascii.eqb "x") ⋅ Run is_digit
  ⋅ Cls is_slash.

(** The path without the patterns of the CDN at its head. *)
Definition clean_pathname (pathname : string) : string :=
  strip (cdn_size "s") (strip (cdn_size "p") (strip cdn_version pathname)).

(** [/^[a-f0-9_]+$/.test(s)] *)
Definition is_hash_char (c : ascii) : bool :=
  (((97 <=? code c) && (code c <=? 102)) || ((48 <=? code c) && (code c <=? 57)))%N
  || is_underscore c.

Definition hash_like (s : string) : bool :=
  negb (Nat.eqb (String.length s) 0) && all_in is_hash_char s.

(** The test on the last segment of the path: generic, or a hash without
    extension. *)
Definition generic (filename : string) : bool :=
  (70 <? String.length filename)%nat || negb (includes "." filename)
  || startsWith "ATL" filename || hash_like (before_first_dot filename).

(** A value that counts as true: a string that is not empty. *)
Definition truthy (v : option string) : bool :=
  match v with
  | Some (String _ _) => true
  | _ => false
  end.

(** [a || b] *)
Definition or_value (a b : option string) : option string := if truthy a then a else b.

Definition potentialName (params : list (string * string)) : option string :=
  or_value
    (or_value (get "oe" params)
       (if truthy (get "_nc_ht" params)
        then split "-" (default EmptyString (get "_nc_ht" params)) !! 1%nat
        else None))
    (get "oh" params).

(** The extension the path of the address ends with, [.jpg] when it is none
    of the three the code knows. *)
Definition extension (pathname : string) : string :=
  if endsWith ".png" (toLowerCase pathname) then ".png"
  else if endsWith ".gif" (toLowerCase pathname) then ".gif"
  else if endsWith ".webp" (toLowerCase pathname) then ".webp"
  else ".jpg".

(** The name [getOriginalNameFromUrl] settles on before it decodes it. *)
Definition encoded_name (now : Z) (url : URL) : string :=
  let segments := split "/" (clean_pathname (pathname url)) in
  let filename := default EmptyString (last segments) in
  let filename :=
    if generic filename then
      let potentialName := potentialName (searchParams url) in
      if truthy potentialName then
        default EmptyString potentialName +:+ extension (pathname url)
      else if negb (includes "." filename) then "image_" +:+ of_int now +:+ ".jpg"
      else filename
    else filename in
  if negb (includes "." filename) then filename +:+ ".jpg" else filename.

(** *** [decodeURIComponent] *)

Definition hex_digit (c : ascii) : option N :=
  if ((48 <=? code c) && (code c <=? 57))%N then Some (code c - 48)%N
  else if ((65 <=? code c) && (code c <=? 70))%N then Some (code c - 55)%N
  else if ((97 <=? code c) && (code c <=? 102))%N then Some (code c - 87)%N
  else None.

(** The input cut into its units: a character that is no percent sign, or
    the octet an escape stands for. *)
Inductive Unit : Type :=
| Plain (c : ascii)
| Escaped (octet : N).

(** No units: a percent sign without two hexadecimal digits after it. *)
Fixpoint units (s : string) : option (list Unit) :=
  match s with
  | EmptyString => Some []
  | String c t =>
      if Ascii.eqb c "%" then
        match t with
        | String a (String b t') =>
            match hex_digit a, hex_digit b with
            | Some x, Some y => cons (Escaped (16 * x + y)) <$> units t'
            | _, _ => None
            end
        | _ => None
        end
      else cons (Plain c) <$> units t
  end.

(** An escaped octet between [lo] and [hi]. *)
Definition continuation (lo hi : N) (u : Unit) : bool :=
  match u with
  | Escaped b => ((lo <=? b) && (b <=? hi))%N
  | Plain _ => false
  end.

Definition octet_of (u : Unit) : N :=
  match u with
  | Escaped b => b
  | Plain c => code c
  end.

(** What the decoding gives: a text of code units below 256, the [URIError]
    of a malformed input, or a text with a code unit from 256 on, which the
    strings of this development do not hold. *)
Inductive Decoded : Type :=
| Text (s : string)
| URIError
| Wide.

Definition emit (c : ascii) (d : Decoded) : Decoded :=
  match d with
  | Text s => Text (String c s)
  | _ => d
  end.

Definition emit_wide (d : Decoded) : Decoded :=
  match d with
  | URIError => URIError
  | _ => Wide
  end.

(** The octets of the escapes read as UTF-8: one octet below 128; two
    octets from 194 to 223 on; three from 224 to 239 on; four from 240 to
    244 on, each with the continuations the encoding allows. *)
Fixpoint decode (l : list Unit) : Decoded :=
  match l with
  | [] => Text EmptyString
  | Plain c :: rest => emit c (decode rest)
  | Escaped b :: rest =>
      if (b <? 128)%N then emit (ascii_of_N b) (decode rest)
      else if ((194 <=? b) && (b <=? 223))%N then
        match rest with
        | u1 :: rest1 =>
            if continuation 128 191 u1 then
              if (b <=? 195)%N then
                emit (ascii_of_N ((b - 192) * 64 + (octet_of u1 - 128))) (decode rest1)
              else emit_wide (decode rest1)
            else URIError
        | _ => URIError
        end
      else if ((224 <=? b) && (b <=? 239))%N then
        match rest with
        | u1 :: u2 :: rest2 =>
            if continuation (if (b =? 224)%N then 160 else 128)
                 (if (b =? 237)%N then 159 else 191) u1
               && continuation 128 191 u2
            then emit_wide (decode rest2) else URIError
        | _ => URIError
        end
      else if ((240 <=? b) && (b <=? 244))%N then
        match rest with
        | u1 :: u2 :: u3 :: rest3 =>
            if continuation (if (b =? 240)%N then 144 else 128)
                 (if (b =? 244)%N then 143 else 191) u1
               && continuation 128 191 u2 && continuation 128 191 u3
            then emit_wide (decode rest3) else URIError
        | _ => URIError
        end
      else URIError
  end.

Definition is_percent (c : ascii) : bool := Ascii.eqb c "%".

(** A text without percent sign. *)
Definition no_escape (s : string) : Prop :=
  all_in (fun c => negb (is_percent c)) s = true.

Definition decodeURIComponent (s : string) : Decoded :=
  match units s with
  | Some l => decode l
  | None => URIError
  end.

(** [getOriginalNameFromUrl(urlString)]; [url] is what [new URL(urlString)]
    gives, nothing when it throws, and [now] what [Date.now()] returns. There
    is no value when the decoded name has a code unit from 256 on. *)
Definition getOriginalNameFromUrl (now : Z) (url : option URL) : option string :=
  match url with
  | Some u =>
      match decodeURIComponent (encoded_name now u) with
      | Text s => Some s
      | URIError => Some ("photo_" +:+ of_int now +:+ ".jpg")
      | Wide => None
      end
  | None => Some ("photo_" +:+ of_int now +:+ ".jpg")
  end.

(** The name the failure of the parsing or of the decoding ends in. *)
Definition fallback_name (now : Z) : string := "photo_" +:+ of_int now +:+ ".jpg".

(** The last segment of a path. *)
Definition last_segment (pathname : string) : string :=
  default EmptyString (last (split "/" pathname)).

End OriginalName.

(** ** Vocabulary of further statements about the worker *)

Module Conduct.
Import Js Utils Background.

(** One component of a path: no character of the class the sanitizer
    replaces, and neither empty nor a dot nor two dots. *)
Definition component (s : string) : Prop := all_in valid_char s = true ∧ usable s.

(** A request that carries no tab, if it is a request. *)
Definition without_tab (i : Input) : Prop :=
  match i with
  | DownloadAlbum _ tabId _ | DownloadPhotosFromPost _ _ tabId
  | DownloadSinglePhoto _ _ tabId _ => truthy_tab tabId = false
  | _ => True
  end.

(** A progress that stands at 0 of a total that is not negative, if the
    message is a progress. *)
Definition progress_at_start (m : PopupMessage) : Prop :=
  match m with
  | downloadProgress processed total _ => processed = 0 ∧ 0 ≤ total
  | _ => True
  end.

(** What the worker holds of the photos: the queue, the downloads under way,
    the paths of the downloads started, the ledger and its stored copy. *)
Definition holdings (s : State)
    : list QueueItem * list InFlight * list string * gset string * gset string :=
  (downloadQueue s, inflight s, started s, downloadedFileIds s, storedFileIds s).


(** The photos of a job that are queued: with [skipDownloaded], those whose
    id is not in the ledger. *)
Definition photosToQueue (options : Options) (ledger : gset string) (photos : list Photo)
    : list Photo :=
  if skipDownloaded options then filter (fun photo => p_id photo ∉ ledger) photos
  else photos.

(** The folder of a collection: the folder rule rendered with the tokens of
    the collection on the date [date]. *)
Definition folder (options : Options) (collectionName : string) (date : JsDate) : string :=
  finish (getTime date)
    (fold_left replace_token (folderTokens collectionName date) (folderNameRule options)).

(** The worker where [processPhotosDownload] leaves it when it has found
    photos to queue: the counters set, the progress sent twice, the queue
    filled. *)
Definition queued (photos : list Photo) (collectionName : string) (tabId : option Z)
    (options : Options) (s : State) : State :=
  let todo := photosToQueue options (downloadedFileIds s) photos in
  let s := set_totalPhotosForCurrentJob (Z.of_nat (length photos)) s in
  let s := set_processedPhotosForCurrentJob 0 s in
  let s := notifyPopup (downloadProgress 0 (Z.of_nat (length photos)) collectionName) s in
  let s := set_totalPhotosForCurrentJob (Z.of_nat (length todo)) s in
  let s := notifyPopup (downloadProgress 0 (Z.of_nat (length todo)) collectionName) s in
  set_downloadQueue
    (queueItems (getTime (clock s)) (folder options collectionName (clock s)) collectionName
       tabId options (clock s) 0 todo) s.

(** The worker where it leaves it when it has found none. *)
Definition nothing_queued (photos : list Photo) (collectionName : string) (s : State)
    : State :=
  let s := set_totalPhotosForCurrentJob (Z.of_nat (length photos)) s in
  let s := set_processedPhotosForCurrentJob 0 s in
  let s := notifyPopup (downloadProgress 0 (Z.of_nat (length photos)) collectionName) s in
  notifyPopup
    (downloadComplete collectionName "All photos already downloaded or collection is empty.") s.

(** No download was ever dispatched: none is under way, none was started, no
    timer and no read of the options for the queue is owed, and the counters
    of the downloads stand at 0. *)
Definition never_dispatched (s : State) : Prop :=
  inflight s = [] ∧ timers s = [] ∧ optionsPending s = O ∧ started s = []
  ∧ activeDownloads s = 0 ∧ processedPhotosForCurrentJob s = 0.

(** What the request of job [j], not cancelled, makes of the way
    [processPhotosDownload] ends: the popup is told of an error thrown. *)
Definition job_end (j : Job) (r : Result) : State :=
  match r with
  | Returned s => s
  | Thrown message s => notifyPopup (downloadError (job_error j message)) s
  end.



End Conduct.

(** ** The options page *)

Module OptionsPage.
Import Js Utils Background Regex Rules.

(** What the elements of the form hold when the options are saved. *)
Record Form : Type := {
  folderNameRuleInput : string;
  fileNameRuleInput : string;
  fileNameIndexPaddingInput : string;
  imageFormatSelect : string;
  skipDownloadedCheckbox : bool;
  concurrentDownloadsInput : string;
  delayBetweenDownloadsInput : string
}.

(** The [defaultOptions] of [options.js]. *)
Definition pageDefaults : Options := {|
  folderNameRule := "{album_name}";
  fileNameRule := "{index}_{original_name}";
  fileNameIndexPadding := 3;
  imageFormat := "original";
  skipDownloaded := true;
  concurrentDownloads := 3;
  delayBetweenDownloads := 500
|}.

(** The number a string of decimal digits stands for, after [acc]; it stops
    at the first character that is no digit. *)
Fixpoint digits_value (acc : Z) (s : string) : Z :=
  match s with
  | String c t =>
      if is_digit c then digits_value (10 * acc + Z.of_N (code c - 48)) t else acc
  | EmptyString => acc
  end.

(** [parseInt(s, 10)]: white space is skipped, then a sign, then the digits
    are read; nothing stands for [NaN]. The value is the exact integer:
    JavaScript rounds it from 2^53 on, to a number of the same sign that the
    clamps of [saveOptions] treat alike. *)
Definition parseInt (s : string) : option Z :=
  let s := drop_while is_space s in
  let (sign, s) :=
    match s with
    | String c t =>
        if Ascii.eqb c "-" then (-1, t) else if Ascii.eqb c "+" then (1, t) else (1, s)
    | EmptyString => (1, s)
    end in
  if Nat.eqb (run_length is_digit s) 0 then None else Some (sign * digits_value 0 s).

(** [n || d] for what [parseInt] returns: [NaN] and 0 give [d]. *)
Definition or_number (n : option Z) (d : Z) : Z :=
  match n with
  | Some n => if n =? 0 then d else n
  | None => d
  end.

(** [saveOptions()]: the options it writes to storage. *)
Definition saveOptions (form : Form) : Options :=
  let options := {|
    folderNameRule := or_else (trim (folderNameRuleInput form)) (folderNameRule pageDefaults);
    fileNameRule := or_else (trim (fileNameRuleInput form)) (fileNameRule pageDefaults);
    fileNameIndexPadding :=
      or_number (parseInt (fileNameIndexPaddingInput form)) (fileNameIndexPadding pageDefaults);
    imageFormat := imageFormatSelect form;
    skipDownloaded := skipDownloadedCheckbox form;
    concurrentDownloads :=
      or_number (parseInt (concurrentDownloadsInput form)) (concurrentDownloads pageDefaults);
    delayBetweenDownloads :=
      or_number (parseInt (delayBetweenDownloadsInput form))
        (delayBetweenDownloads pageDefaults)
  |} in
  {| folderNameRule := folderNameRule options;
     fileNameRule := fileNameRule options;
     fileNameIndexPadding := Z.max 0 (Z.min 10 (fileNameIndexPadding options));
     imageFormat := imageFormat options;
     skipDownloaded := skipDownloaded options;
     concurrentDownloads := Z.max 1 (Z.min 10 (concurrentDownloads options));
     delayBetweenDownloads := Z.max 0 (Z.min 10000 (delayBetweenDownloads options)) |}.

(** [resetOptions()] when the user confirms: what it writes to storage. *)
Definition resetOptions : Options := pageDefaults.

End OptionsPage.

(** ** The scraper of [getPhotoUrlsForAlbum] *)

Module Resolver.
Import Js Utils Background OriginalName.

(** The test of the filter on what the elements of the page give:
    [p.url && !p.url.startsWith('data:image') && p.url.includes('fbcdn.net')]. *)
Definition from_cdn (p : Photo) : bool :=
  negb (Nat.eqb (String.length (p_url p)) 0)
  && negb (startsWith "data:image" (p_url p))
  && includes "fbcdn.net" (p_url p).

(** The loop that fills [uniquePhotos]: a photo is kept when its address is
    not among those seen. *)
Fixpoint uniquePhotos (seenUrls : gset string) (photos : list Photo) : list Photo :=
  match photos with
  | [] => []
  | photo :: rest =>
      if decide (p_url photo ∈ seenUrls) then uniquePhotos seenUrls rest
      else photo :: uniquePhotos ({[ p_url photo ]} ∪ seenUrls) rest
  end.

(** The photos the scraper returns, of those the elements of the page
    give. *)
Definition scraped (photos : list Photo) : list Photo :=
  uniquePhotos ∅ (filter (fun p => from_cdn p = true) photos).

(** [[a-zA-Z0-9_.-]] *)
Definition is_name_char (c : ascii) : bool :=
  (((97 <=? code c) && (code c <=? 122)) || ((65 <=? code c) && (code c <=? 90))
   || ((48 <=? code c) && (code c <=? 57)))%N
  || in_class "_.-" c.

(** The name the scraper gives a photo, from the [alt] of the image, the
    album, the rank of the image on the page and its address. *)
Definition scrapedName (alt currentAlbumId : string) (index : Z) (src : string) : string :=
  replace_all (m_class (fun c => negb (is_name_char c))) (lit "_")
    (substring0 50 (or_else alt ("image_from_" +:+ currentAlbumId +:+ "_" +:+ of_int index)))
  +:+ (if includes ".png" src then ".png" else ".jpg").

End Resolver.

(** * Facts about the renderer and the sanitizer *)

Module UtilsFacts.
Import Js Utils.

Section Engine.
Variable m : matcher.
Variable x : string.

Lemma all_in_app P s t : all_in P (s +:+ t) = all_in P s && all_in P t.
Proof. induction s as [|c s IH]; simpl; [done|]. by rewrite IH, andb_assoc. Qed.

Lemma str_length_app s t : String.length (s +:+ t) = (String.length s + String.length t)%nat.
Proof. induction s as [|c s IH]; simpl; [done|]. by rewrite IH. Qed.

Lemma replace_from_before st b b' s k :
  replace_from m (lit x) st b s k = replace_from m (lit x) st b' s k.
Proof.
  revert st b b' k. induction s as [|c s IH]; intros st b b' k; simpl; [done|].
  destruct k as [|k]; [|apply IH].
  destruct (m st (String c s)) as [[|n]|]; unfold lit; f_equal; apply IH.
Qed.

Lemma replace_from_skip k st b s :
  replace_from m (lit x) st b s (S k)
  = replace_from m (lit x) false b (str_drop (S k) s) O.
Proof.
  revert st b s. induction k as [|k IH]; intros st b [|c s]; try done.
  - simpl. apply replace_from_before.
  - change (replace_from m (lit x) false (b +:+ String c EmptyString) s (S k)
            = replace_from m (lit x) false b (str_drop (S k) s) O).
    rewrite IH. apply replace_from_before.
Qed.

Lemma replace_from_all_in P st b s k :
  all_in P s = true → all_in P x = true →
  all_in P (replace_from m (lit x) st b s k) = true.
Proof.
  intros Hs Hx. revert st b k Hs. induction s as [|c s IH]; intros st b k Hs; simpl; [done|].
  simpl in Hs. apply andb_true_iff in Hs as [Hc Hs].
  destruct k as [|k]; [|by apply IH].
  destruct (m st (String c s)) as [[|n]|]; unfold lit; simpl;
    rewrite ?all_in_app, ?Hc, ?Hx, ?IH; done.
Qed.

Lemma replace_from_exhaust st b s k :
  (String.length s <= k)%nat → replace_from m (lit x) st b s k = EmptyString.
Proof.
  revert st b k. induction s as [|c s IH]; intros st b k Hk; simpl; [done|].
  simpl in Hk. destruct k as [|k]; [lia|]. apply IH. lia.
Qed.

End Engine.


Lemma head_in_app Q s t : head_in Q s → head_in Q (s +:+ t).
Proof. by destruct s. Qed.

Lemma replace_all_head Q m x s :
  head_in Q s → head_in Q x → head_in Q (replace_all m (lit x) s).
Proof.
  unfold replace_all. destruct s as [|c s]; [done|]. intros Hc Hx. simpl.
  destruct (m true (String c s)) as [[|n]|]; try done. by apply head_in_app.
Qed.

Lemma replace_all_nonempty m x s :
  s ≠ EmptyString → x ≠ EmptyString → replace_all m (lit x) s ≠ EmptyString.
Proof.
  unfold replace_all. destruct s as [|c s]; [done|]. intros _ Hx. simpl.
  destruct (m true (String c s)) as [[|n]|]; try done. unfold lit. by destruct x.
Qed.


Lemma edge_dots_head s :
  s ≠ EmptyString → head_in not_dot (replace_all (m_edge_runs is_dot) (lit "_") s).
Proof.
  unfold replace_all. destruct s as [|c s]; [done|]. intros _. simpl.
  unfold m_edge_runs. simpl. unfold not_dot. destruct (is_dot c) eqn:Hc; simpl; [done|].
  by rewrite Hc.
Qed.

Lemma replace_invalid_head s :
  s ≠ EmptyString → head_in not_dot (replace_invalid s).
Proof.
  intros Hs. unfold replace_invalid.
  do 2 (apply replace_all_head; [|done]).
  apply edge_dots_head. do 2 (apply replace_all_nonempty; [|done]). done.
Qed.

Lemma substring0_head n c s :
  (1 <= n)%nat → String.substring 0 n (String c s) = String c (String.substring 0 (n - 1) s).
Proof. destruct n; [lia|]. intros _. simpl. by rewrite Nat.sub_0_r. Qed.

Lemma length_substring0 n s :
  String.length (String.substring 0 n s) = Nat.min n (String.length s).
Proof.
  revert s. induction n as [|n IH]; intros [|c s]; simpl; try done. by rewrite IH.
Qed.


Lemma head_usable s : head_in not_dot s → usable s.
Proof.
  unfold usable, not_dot, is_dot. destruct s as [|c s]; [done|]. simpl. intros Hc.
  apply negb_true_iff in Hc. rewrite Hc. done.
Qed.

Lemma long_usable s : (3 <= String.length s)%nat → usable s.
Proof.
  unfold usable. destruct s as [|a [|b [|c s]]]; simpl; try lia. intros _.
  destruct (Ascii.eqb a "."); [|done]. destruct (Ascii.eqb b "."); done.
Qed.

Lemma limit_length_usable s : head_in not_dot s → usable (limit_length s).
Proof.
  intros Hs. unfold limit_length, maxLength.
  destruct (180 <? Z.of_nat (String.length s)) eqn:Hlen; [|by apply head_usable].
  apply Z.ltb_lt in Hlen.
  set (ext := match find_match m_extension true s with Some e => e | None => EmptyString end).
  destruct (decide (180 <= String.length ext)%nat) as [Hbig|Hsmall].
  - apply long_usable. rewrite str_length_app. lia.
  - apply head_usable, head_in_app.
    destruct s as [|c s]; [done|].
    assert (Hcut : ∀ n, (1 <= n)%nat →
      head_in not_dot (substring0 (180 - Z.of_nat (String.length ext)) (String.substring 0 n (String c s)))).
    { intros n Hn. rewrite (substring0_head n) by done. unfold substring0.
      rewrite substring0_head by lia. done. }
    destruct (Nat.eqb (String.length ext) 0) eqn:He.
    + unfold substring0. rewrite substring0_head by lia. done.
    + unfold substring0 at 2. apply Hcut. simpl in Hlen |- *. lia.
Qed.

Lemma sanitizeFilename_clock now1 now2 x :
  x ≠ EmptyString → sanitizeFilename now1 x = sanitizeFilename now2 x.
Proof.
  intros Hx. unfold sanitizeFilename.
  destruct (Nat.eqb (String.length x) 0) eqn:He; [by destruct x|].
  pose proof (limit_length_usable _ (replace_invalid_head x Hx)) as Hu.
  unfold usable in Hu. by rewrite Hu.
Qed.


(** *** The renderer *)

Lemma occurs_false_replace l r st b s :
  occurs l s = false → replace_from (m_literal l) r st b s O = s.
Proof.
  revert st b. induction s as [|c s IH]; intros st b Ho; [done|].
  cbn [occurs] in Ho. apply orb_false_iff in Ho as [Hp Ho].
  cbn [replace_from]. unfold m_literal at 1. rewrite Hp. f_equal. by apply IH.
Qed.

Lemma replace_tokens_unmatched rule data :
  no_token_matches rule data → fold_left replace_token data rule = rule.
Proof.
  unfold no_token_matches. induction 1 as [|entry data Hentry _ IH]; [done|].
  simpl. unfold replace_token at 2. unfold replace_all.
  rewrite occurs_false_replace by done. apply IH.
Qed.

Lemma apply_tokens_none data : fold_left apply_token data None = None.
Proof.
  induction data as [|entry data IH]; [done|]. simpl. unfold apply_token at 2.
  by destruct (plain_token entry.1).
Qed.

Lemma apply_tokens_plain rule data :
  plain_tokens data = true →
  fold_left apply_token data (Some rule) = Some (fold_left replace_token data rule).
Proof.
  revert rule. induction data as [|entry data IH]; intros rule Hp; [done|].
  simpl in Hp. apply andb_true_iff in Hp as [He Hp]. simpl. unfold apply_token at 2.
  rewrite He. by apply IH.
Qed.

Lemma apply_tokens_not_plain rule data :
  plain_tokens data = false → fold_left apply_token data (Some rule) = None.
Proof.
  revert rule. induction data as [|entry data IH]; intros rule Hp; [done|].
  simpl in Hp. simpl. unfold apply_token at 2.
  destruct (plain_token entry.1); [by apply IH|apply apply_tokens_none].
Qed.

Lemma applyTokenToFilename_plain now rule data :
  plain_tokens data = true →
  applyTokenToFilename now rule data = Some (finish now (fold_left replace_token data rule)).
Proof. intros Hp. unfold applyTokenToFilename. by rewrite apply_tokens_plain. Qed.

Lemma applyTokenToFilename_rendered now rule data name :
  applyTokenToFilename now rule data = Some name →
  plain_tokens data = true ∧ name = finish now (fold_left replace_token data rule).
Proof.
  intros H. destruct (plain_tokens data) eqn:Hp.
  - rewrite applyTokenToFilename_plain in H by done. by injection H as <-.
  - unfold applyTokenToFilename in H. by rewrite apply_tokens_not_plain in H.
Qed.


Lemma drop_run P s :
  str_drop (run_length P s) s = EmptyString
  ∨ head_in (fun c => negb (P c)) (str_drop (run_length P s) s).
Proof.
  induction s as [|c s IH]; simpl; [by left|].
  destruct (P c) eqn:Hc; [done|]. simpl. right. by rewrite Hc.
Qed.

Lemma replace_from_match m r st b c s n :
  m st (String c s) = Some (S n) →
  replace_from m r st b (String c s) O
  = r b (String.substring 0 (S n) (String c s)) (str_drop (S n) (String c s))
    +:+ replace_from m r false (b +:+ String c EmptyString) s n.
Proof. intros H. cbn [replace_from]. by rewrite H. Qed.

Lemma replace_from_no_match m r st b c s :
  m st (String c s) = None →
  replace_from m r st b (String c s) O
  = String c (replace_from m r false (b +:+ String c EmptyString) s O).
Proof. intros H. cbn [replace_from]. by rewrite H. Qed.

Lemma m_edge_runs_outside P st c s : P c = false → m_edge_runs P st (String c s) = None.
Proof. intros Hc. unfold m_edge_runs. cbn [run_length]. by rewrite Hc. Qed.

Lemma m_edge_runs_start P c s :
  P c = true → m_edge_runs P true (String c s) = Some (S (run_length P s)).
Proof. intros Hc. unfold m_edge_runs. cbn [run_length]. by rewrite Hc. Qed.

Lemma edge_runs_inner_head P b s :
  s = EmptyString ∨ head_in (fun c => negb (P c)) s →
  replace_from (m_edge_runs P) (lit EmptyString) false b s O = EmptyString
  ∨ head_in (fun c => negb (P c)) (replace_from (m_edge_runs P) (lit EmptyString) false b s O).
Proof.
  intros [->|Hs]; [by left|]. destruct s as [|c s]; [done|]. right.
  cbn [head_in] in Hs. rewrite replace_from_no_match; [done|].
  apply m_edge_runs_outside. by apply negb_true_iff.
Qed.

Lemma edge_runs_head P s :
  replace_all (m_edge_runs P) (lit EmptyString) s = EmptyString
  ∨ head_in (fun c => negb (P c)) (replace_all (m_edge_runs P) (lit EmptyString) s).
Proof.
  unfold replace_all. destruct s as [|c s]; [by left|].
  destruct (P c) eqn:Hc.
  - rewrite (replace_from_match _ _ _ _ _ _ _ (m_edge_runs_start P c s Hc)).
    unfold lit at 1 3. cbn [String.append].
    pose proof (drop_run P s) as Hd.
    destruct (run_length P s) as [|k].
    + by apply edge_runs_inner_head.
    + rewrite replace_from_skip. by apply edge_runs_inner_head.
  - right. rewrite replace_from_no_match by by apply m_edge_runs_outside.
    cbn [head_in]. by rewrite Hc.
Qed.

Lemma head_not_all P s : head_in (fun c => negb (P c)) s → all_in P s = false.
Proof. destruct s as [|c s]; [done|]. simpl. intros Hc. apply negb_true_iff in Hc. by rewrite Hc. Qed.

Lemma finish_not_bare now result :
  finish now result ≠ EmptyString ∧ all_in is_separator (finish now result) = false.
Proof.
  unfold finish. cbv zeta.
  match goal with |- context [replace_all (m_edge_runs is_separator) (lit EmptyString) ?z] =>
    generalize (edge_runs_head is_separator z);
    generalize (replace_all (m_edge_runs is_separator) (lit EmptyString) z)
  end.
  intros y [->|Hy]; [done|]. destruct y as [|c y]; [done|].
  cbn [String.length Nat.eqb]. split; [done|]. by apply head_not_all.
Qed.

Lemma all_in_run_length P s : all_in P s = true → run_length P s = String.length s.
Proof.
  induction s as [|c s IH]; simpl; [done|]. intros H. apply andb_true_iff in H as [-> H].
  by rewrite IH.
Qed.

Lemma edge_runs_all P s :
  all_in P s = true → replace_all (m_edge_runs P) (lit EmptyString) s = EmptyString.
Proof.
  unfold replace_all. destruct s as [|c s]; [done|]. intros Hs.
  cbn [all_in] in Hs. apply andb_true_iff in Hs as [Hc Hs].
  rewrite (replace_from_match _ _ _ _ _ _ _ (m_edge_runs_start P c s Hc)).
  unfold lit at 1. cbn [String.append].
  apply replace_from_exhaust. by rewrite all_in_run_length.
Qed.

Lemma all_in_drop_while P Q s : all_in P s = true → all_in P (drop_while Q s) = true.
Proof.
  induction s as [|c s IH]; simpl; [done|]. intros H. destruct (Q c); [|done].
  apply andb_true_iff in H as [_ H]. by apply IH.
Qed.

Lemma all_in_drop_trailing P Q s : all_in P s = true → all_in P (drop_trailing Q s) = true.
Proof.
  induction s as [|c s IH]; [done|]. intros H. cbn [drop_trailing].
  destruct (all_in Q (String c s)); [done|]. simpl in H |- *.
  apply andb_true_iff in H as [-> H]. by apply IH.
Qed.

Lemma run_length_stop Q name d s :
  all_in Q name = true → Q d = false →
  run_length Q (name +:+ String d s) = String.length name.
Proof.
  intros Hn Hd. induction name as [|c name IH]; simpl in *; [by rewrite Hd|].
  apply andb_true_iff in Hn as [-> Hn]. by rewrite IH.
Qed.

Lemma str_nth_app name d s : str_nth (String.length name) (name +:+ String d s) = Some d.
Proof. unfold str_nth. induction name as [|c name IH]; simpl; done. Qed.

Lemma str_drop_past name d s : str_drop (S (String.length name)) (name +:+ String d s) = s.
Proof. induction name as [|c name IH]; [by destruct s|]. apply IH. Qed.

Lemma m_placeholder_match st name s :
  name ≠ EmptyString → all_in (fun c => negb (is_close_brace c)) name = true →
  m_placeholder st (String "{" (name +:+ String "}" s)) = Some (S (S (String.length name))).
Proof.
  intros Hne Hname. unfold m_placeholder.
  rewrite run_length_stop by done. rewrite str_nth_app.
  by destruct name.
Qed.

Lemma remove_placeholders_separators s :
  placeholders_and_separators s → ∀ st b,
  all_in is_separator (replace_from m_placeholder (lit EmptyString) st b s O) = true.
Proof.
  induction 1 as [|c s Hc _ IH|name s Hne Hname _ IH]; intros st b; [done| |].
  - assert (c = "-"%char ∨ c = "_"%char) as [->| ->].
    { unfold is_separator, is_hyphen, is_underscore in Hc.
      apply orb_true_iff in Hc as [Hc|Hc]; apply Ascii.eqb_eq in Hc; auto. }
    + rewrite replace_from_no_match by done. cbn [all_in]. by rewrite IH.
    + rewrite replace_from_no_match by done. cbn [all_in]. by rewrite IH.
  - change ("{" +:+ name +:+ "}" +:+ s) with (String "{" (name +:+ String "}" s)).
    rewrite (replace_from_match _ _ _ _ _ _ _ (m_placeholder_match st name s Hne Hname)).
    unfold lit at 1. cbn [String.append].
    rewrite replace_from_skip, str_drop_past. apply IH.
Qed.

(** *** The sanitizer applied to its own result *)

Lemma append_cons c s t : String c s +:+ t = String c (s +:+ t).
Proof. done. Qed.

Lemma append_empty t : EmptyString +:+ t = t.
Proof. done. Qed.

Lemma replace_unmatched m r st b s :
  unmatched m st s → replace_from m r st b s O = s.
Proof.
  revert st b. induction s as [|c s IH]; intros st b Hs; [done|].
  destruct Hs as [Hm Hs]. rewrite replace_from_no_match by done. f_equal. by apply IH.
Qed.

(** What the replacement lets through is what the expression does not
    match: when those characters and the replacement are in a class, so is
    the result. *)
Lemma replace_from_emitted m x (Q : ascii → bool) st b s k :
  (∀ st c t, m st (String c t) = None ∨ m st (String c t) = Some O → Q c = true) →
  all_in Q x = true →
  all_in Q (replace_from m (lit x) st b s k) = true.
Proof.
  intros Hm Hx. revert st b k. induction s as [|c s IH]; intros st b k; [done|].
  cbn [replace_from]. destruct k as [|k]; [|apply IH].
  destruct (m st (String c s)) as [[|n]|] eqn:Hc.
  - cbn [all_in]. rewrite IH, (Hm st c s) by auto. done.
  - unfold lit at 1. by rewrite all_in_app, Hx, IH.
  - cbn [all_in]. rewrite IH, (Hm st c s) by auto. done.
Qed.

Lemma replace_from_nonempty m x st b s :
  s ≠ EmptyString → x ≠ EmptyString → replace_from m (lit x) st b s O ≠ EmptyString.
Proof.
  destruct s as [|c s]; [done|]. intros _ Hx. cbn [replace_from].
  destruct (m st (String c s)) as [[|n]|]; try done. unfold lit. by destruct x.
Qed.

(** The result starts with the replacement or with the first character of
    the input. *)
Lemma replace_from_first m p st b c s :
  ∃ out, replace_from m (lit (String p EmptyString)) st b (String c s) O = String p out
         ∨ replace_from m (lit (String p EmptyString)) st b (String c s) O = String c out.
Proof.
  cbn [replace_from]. destruct (m st (String c s)) as [[|n]|]; unfold lit; cbn [String.append];
    eauto.
Qed.

Lemma no_pair_cons P c s :
  no_pair P (String c s) ↔
  match s with String d _ => P c && P d = false | EmptyString => True end ∧ no_pair P s.
Proof. done. Qed.

(** A replacement by one character outside the class brings no two
    characters of the class side by side. *)
Lemma replace_from_no_pair m (D : ascii → bool) p st b s k :
  D p = false → no_pair D s →
  no_pair D (replace_from m (lit (String p EmptyString)) st b s k).
Proof.
  intros Hp. revert st b k. induction s as [|c s IH]; intros st b k Hs; [done|].
  apply no_pair_cons in Hs as [Hc Hs]. cbn [replace_from].
  destruct k as [|k]; [|by apply IH].
  assert (no_pair D (String c (replace_from m (lit (String p EmptyString)) false
                                 (b +:+ String c EmptyString) s O))) as Hkeep.
  { apply no_pair_cons. split; [|by apply IH].
    destruct s as [|d s]; [done|].
    destruct (replace_from_first m p false (b +:+ String c EmptyString) d s) as [out [-> | ->]].
    - by rewrite Hp, andb_false_r.
    - done. }
  destruct (m st (String c s)) as [[|n]|]; try done.
  unfold lit at 1. change (no_pair D (String p (replace_from m (lit (String p EmptyString)) false
                                              (b +:+ String c EmptyString) s n))).
  apply no_pair_cons. split; [|by apply IH].
  destruct (replace_from _ _ _ _ s n); [done|]. by rewrite Hp.
Qed.

Lemma last_in_cons P c s :
  s ≠ EmptyString → last_in P (String c s) = last_in P s.
Proof. by destruct s. Qed.

(** Nor does it bring a character of the class to the end. *)
Lemma replace_from_last m (D : ascii → bool) p st b s k :
  D p = false → last_in D s = false →
  last_in D (replace_from m (lit (String p EmptyString)) st b s k) = false.
Proof.
  intros Hp. revert st b k. induction s as [|c s IH]; intros st b k Hs; [done|].
  assert (∀ st b k, last_in D (replace_from m (lit (String p EmptyString)) st b s k) = false)
    as IH'.
  { intros st' b' k'. destruct s as [|d s]; [done|]. apply IH. by rewrite last_in_cons in Hs. }
  cbn [replace_from]. destruct k as [|k]; [|apply IH'].
  assert (last_in D (String c (replace_from m (lit (String p EmptyString)) false
                                 (b +:+ String c EmptyString) s O)) = false) as Hkeep.
  { destruct s as [|d s]; [done|]. rewrite last_in_cons; [apply IH'|].
    by apply replace_from_nonempty. }
  destruct (m st (String c s)) as [[|n]|]; try done.
  unfold lit at 1. cbn [String.append].
  rewrite append_cons, append_empty.
  destruct (replace_from m _ false _ s n) eqn:Hout; [done|].
  rewrite last_in_cons by done. rewrite <- Hout. apply IH'.
Qed.

Lemma all_in_last P s : s ≠ EmptyString → all_in P s = true → last_in P s = true.
Proof.
  induction s as [|c s IH]; [done|]. intros _ H. cbn [all_in] in H.
  apply andb_true_iff in H as [Hc Hs]. destruct s as [|d s]; [done|].
  rewrite last_in_cons by done. by apply IH.
Qed.

(** The replacement of the runs at the two ends leaves no character of the
    class at the end. *)
Lemma edge_runs_last (D : ascii → bool) p st b s k :
  D p = false →
  last_in D (replace_from (m_edge_runs D) (lit (String p EmptyString)) st b s k) = false.
Proof.
  intros Hp. revert st b k. induction s as [|c s IH]; intros st b k; [done|].
  cbn [replace_from]. destruct k as [|k]; [|apply IH].
  assert (m_edge_runs D st (String c s) = None →
          last_in D (String c (replace_from (m_edge_runs D) (lit (String p EmptyString)) false
                                 (b +:+ String c EmptyString) s O)) = false) as Hkeep.
  { intros Hnone. destruct s as [|d s].
    - unfold m_edge_runs in Hnone. cbn in Hnone |- *. destruct (D c); [by destruct st|done].
    - rewrite last_in_cons; [apply IH|]. by apply replace_from_nonempty. }
  destruct (m_edge_runs D st (String c s)) as [[|n]|] eqn:Hm.
  - unfold m_edge_runs in Hm. destruct (Nat.eqb _ 0) eqn:Hz; [done|].
    apply Nat.eqb_neq in Hz. by repeat case_match; simplify_eq.
  - unfold lit at 1. cbn [String.append].
    rewrite append_cons, append_empty.
    destruct (replace_from _ _ false _ s n) eqn:Hout; [done|].
    rewrite last_in_cons by done. rewrite <- Hout. apply IH.
  - by apply Hkeep.
Qed.

Lemma length_str_drop k s : (String.length (str_drop k s) ≤ String.length s)%nat.
Proof.
  revert s. induction k as [|k IH]; intros [|c s]; simpl; try lia. specialize (IH s). lia.
Qed.

Lemma drop_run_outside P s : starts_outside P (str_drop (run_length P s) s).
Proof. induction s as [|c s IH]; simpl; [done|]. destruct (P c) eqn:Hc; [done|]. by simpl. Qed.

Lemma m_run_outside P min st c s : P c = false → m_run P min st (String c s) = None.
Proof.
  intros Hc. unfold m_run. cbn [run_length]. rewrite Hc. by rewrite andb_false_r.
Qed.

Lemma m_run_inside P min st c s :
  P c = true →
  m_run P min st (String c s)
  = if Nat.leb min (S (run_length P s)) then Some (S (run_length P s)) else None.
Proof.
  intros Hc. unfold m_run. cbn [run_length]. rewrite Hc. by rewrite andb_true_r.
Qed.

Lemma run_length_0 P s : run_length P s = O → starts_outside P s.
Proof. destruct s as [|c s]; [done|]. simpl. by destruct (P c). Qed.

Lemma no_pair_outside P c s :
  starts_outside P s → no_pair P s → no_pair P (String c s).
Proof.
  intros Hs Hp. apply no_pair_cons. split; [|done]. destruct s as [|d s]; [done|].
  simpl in Hs. by rewrite Hs, andb_false_r.
Qed.

(** The replacement of the runs of two or more by one character leaves no
    two characters of the class side by side. *)
Lemma collapse_no_pair P p n :
  ∀ s, (String.length s ≤ n)%nat → ∀ st b,
    no_pair P (replace_from (m_run P 2) (lit (String p EmptyString)) st b s O)
    ∧ (starts_outside P s →
       starts_outside P (replace_from (m_run P 2) (lit (String p EmptyString)) st b s O)).
Proof.
  induction n as [|n IH]; intros [|c s] Hlen st b; try done; [simpl in Hlen; lia|].
  simpl in Hlen. assert (String.length s ≤ n)%nat as Hs by lia.
  destruct (P c) eqn:Hc.
  - pose proof (m_run_inside P 2 st c s Hc) as Hm.
    destruct (run_length P s) as [|r] eqn:Hr.
    + cbn in Hm. rewrite replace_from_no_match by done.
      destruct (IH s Hs false (b +:+ String c EmptyString)) as [Hp Ho].
      split; [|by cbn; congruence].
      apply no_pair_outside; [|done]. by apply Ho, run_length_0.
    + cbn in Hm. rewrite (replace_from_match _ _ _ _ _ _ _ Hm).
      unfold lit at 1. rewrite append_cons, append_empty, replace_from_skip.
      pose proof (drop_run_outside P s) as Hd. rewrite Hr in Hd.
      pose proof (length_str_drop (S r) s) as Hl.
      destruct (IH (str_drop (S r) s) ltac:(lia) false (b +:+ String c EmptyString)) as [Hp Ho].
      split; [|by cbn; congruence].
      apply no_pair_outside; [by apply Ho|done].
  - rewrite replace_from_no_match by by apply m_run_outside.
    destruct (IH s Hs false (b +:+ String c EmptyString)) as [Hp Ho].
    split; [|done]. apply no_pair_cons. split; [|done].
    destruct (replace_from _ _ _ _ s O); [done|]. by rewrite Hc.
Qed.

(** From the shape to the expressions that do not match. *)
Lemma unmatched_class P st s :
  all_in (fun c => negb (P c)) s = true → unmatched (m_class P) st s.
Proof.
  revert st. induction s as [|c s IH]; intros st Hs; [done|]. cbn [all_in] in Hs.
  apply andb_true_iff in Hs as [Hc Hs]. apply negb_true_iff in Hc.
  split; [|by apply IH]. cbn. by rewrite Hc.
Qed.

Lemma unmatched_run_1 P st s :
  all_in (fun c => negb (P c)) s = true → unmatched (m_run P 1) st s.
Proof.
  revert st. induction s as [|c s IH]; intros st Hs; [done|]. cbn [all_in] in Hs.
  apply andb_true_iff in Hs as [Hc Hs]. apply negb_true_iff in Hc.
  split; [|by apply IH]. by apply m_run_outside.
Qed.

Lemma unmatched_run_2 P st s : no_pair P s → unmatched (m_run P 2) st s.
Proof.
  revert st. induction s as [|c s IH]; intros st Hs; [done|].
  apply no_pair_cons in Hs as [Hc Hs]. split; [|by apply IH].
  destruct (P c) eqn:Hpc; [|by apply m_run_outside].
  rewrite m_run_inside by done. destruct s as [|d s]; [done|].
  cbn [run_length]. simpl in Hc. by rewrite Hc.
Qed.

Lemma run_length_all P s : run_length P s = String.length s → all_in P s = true.
Proof.
  induction s as [|c s IH]; [done|]. simpl. destruct (P c); [|done].
  intros H. injection H as H. by apply IH.
Qed.

Lemma unmatched_edge_runs D st s :
  (st = true → starts_outside D s) → last_in D s = false →
  unmatched (m_edge_runs D) st s.
Proof.
  revert st. induction s as [|c s IH]; intros st Hst Hlast; [done|]. split.
  - destruct (D c) eqn:Hc; [|by apply m_edge_runs_outside].
    destruct st; [by specialize (Hst eq_refl); simpl in Hst; congruence|].
    unfold m_edge_runs. destruct (Nat.eqb _ 0); [done|].
    destruct (Nat.eqb (run_length D (String c s)) (String.length (String c s))) eqn:He; [|done].
    apply Nat.eqb_eq, run_length_all, all_in_last in He; [congruence|done].
  - apply IH; [done|]. destruct s as [|d s]; [done|]. by rewrite last_in_cons in Hlast.
Qed.

Lemma replace_invalid_fixed s : sanitized_form s → replace_invalid s = s.
Proof.
  intros (Hv & Hs & Hd & Hu & Hh & Hl). unfold replace_invalid, replace_all.
  rewrite (replace_unmatched (m_class is_invalid_char)); [|apply unmatched_class].
  2: { unfold valid_char in Hv. by rewrite <- Hv. }
  rewrite (replace_unmatched (m_run is_dot 2)) by by apply unmatched_run_2.
  rewrite (replace_unmatched (m_edge_runs is_dot)) by by apply unmatched_edge_runs.
  rewrite (replace_unmatched (m_run is_space 1)); [|apply unmatched_run_1].
  2: { unfold not_space in Hs. by rewrite <- Hs. }
  by rewrite (replace_unmatched (m_run is_underscore 2)) by by apply unmatched_run_2.
Qed.

Lemma replace_all_starts_outside m (D : ascii → bool) p s :
  D p = false → starts_outside D s →
  starts_outside D (replace_all m (lit (String p EmptyString)) s).
Proof.
  intros Hp Hs. unfold replace_all. destruct s as [|c s]; [done|].
  by destruct (replace_from_first m p true EmptyString c s) as [out [-> | ->]].
Qed.

Lemma edge_runs_starts_outside (D : ascii → bool) p s :
  D p = false → starts_outside D (replace_all (m_edge_runs D) (lit (String p EmptyString)) s).
Proof.
  intros Hp. unfold replace_all. destruct s as [|c s]; [done|].
  destruct (D c) eqn:Hc.
  - rewrite (replace_from_match _ _ _ _ _ _ _ (m_edge_runs_start D c s Hc)).
    unfold lit at 1. by rewrite append_cons.
  - by rewrite replace_from_no_match by by apply m_edge_runs_outside.
Qed.

(** The five replacements give a name of the sanitized shape. *)
Lemma replace_invalid_form x : sanitized_form (replace_invalid x).
Proof.
  unfold replace_invalid.
  set (r1 := replace_all (m_class is_invalid_char) (lit "_") x).
  set (r2 := replace_all (m_run is_dot 2) (lit ".") r1).
  set (r3 := replace_all (m_edge_runs is_dot) (lit "_") r2).
  set (r4 := replace_all (m_run is_space 1) (lit "_") r3).
  set (r5 := replace_all (m_run is_underscore 2) (lit "_") r4).
  assert (all_in valid_char r1 = true) as Hv1.
  { apply replace_from_emitted; [|done]. intros st c t. unfold m_class, valid_char.
    destruct (is_invalid_char c); [|done]. by intros [|]. }
  assert (all_in valid_char r2 = true) as Hv2 by by apply replace_from_all_in.
  assert (all_in valid_char r3 = true) as Hv3 by by apply replace_from_all_in.
  assert (all_in valid_char r4 = true) as Hv4 by by apply replace_from_all_in.
  assert (all_in valid_char r5 = true) as Hv5 by by apply replace_from_all_in.
  assert (no_pair is_dot r2) as Hd2
    by apply (collapse_no_pair is_dot "." (String.length r1) r1 (le_n _) true EmptyString).
  assert (no_pair is_dot r3) as Hd3 by by apply replace_from_no_pair.
  assert (no_pair is_dot r4) as Hd4 by by apply replace_from_no_pair.
  assert (no_pair is_dot r5) as Hd5 by by apply replace_from_no_pair.
  assert (starts_outside is_dot r3) as Hh3 by by apply edge_runs_starts_outside.
  assert (starts_outside is_dot r4) as Hh4 by by apply replace_all_starts_outside.
  assert (starts_outside is_dot r5) as Hh5 by by apply replace_all_starts_outside.
  assert (last_in is_dot r3 = false) as Hl3 by by apply edge_runs_last.
  assert (last_in is_dot r4 = false) as Hl4 by by apply replace_from_last.
  assert (last_in is_dot r5 = false) as Hl5 by by apply replace_from_last.
  assert (all_in not_space r4 = true) as Hs4.
  { apply replace_from_emitted; [|done]. intros st c t. unfold not_space.
    destruct (is_space c) eqn:Hc; [|done]. rewrite m_run_inside by done. by intros [|]. }
  assert (all_in not_space r5 = true) as Hs5 by by apply replace_from_all_in.
  assert (no_pair is_underscore r5) as Hu5
    by apply (collapse_no_pair is_underscore "_" (String.length r4) r4 (le_n _) true EmptyString).
  done.
Qed.

Lemma replace_invalid_twice x : replace_invalid (replace_invalid x) = replace_invalid x.
Proof. apply replace_invalid_fixed, replace_invalid_form. Qed.

Lemma all_in_cons P c s : all_in P (String c s) = P c && all_in P s.
Proof. done. Qed.

Lemma reservedNames_underscore t : reservedNames (String "_" t) = false.
Proof. by destruct t as [|a [|b [|c [|d t]]]]. Qed.

Lemma limit_length_short s : (String.length s ≤ 180)%nat → limit_length s = s.
Proof.
  intros Hs. unfold limit_length, maxLength.
  destruct (180 <? Z.of_nat (String.length s)) eqn:Hlt; [|done]. apply Z.ltb_lt in Hlt. lia.
Qed.

(** A name that is not empty, of the sanitized shape and within the length
    limit is left as it is. *)
Lemma sanitizeFilename_fixed now s :
  s ≠ EmptyString → sanitized_form s → (String.length s ≤ 180)%nat →
  reservedNames (before_first_dot s) = false →
  sanitizeFilename now s = s.
Proof.
  intros Hne Hform Hlen Hres. unfold sanitizeFilename.
  destruct s as [|c s]; [done|]. cbn [String.length Nat.eqb].
  rewrite replace_invalid_fixed, limit_length_short by done. cbv zeta.
  destruct Hform as (_ & _ & _ & _ & Hh & _).
  pose proof (head_usable (String c s)) as Hu. unfold usable in Hu. rewrite Hu, Hres; [done|].
  unfold not_dot. cbn in Hh |- *. by rewrite Hh.
Qed.

(** When the five replacements leave fewer than 180 characters, the length
    limit does not cut, and sanitizing the result once more changes
    nothing. *)
Theorem sanitize_twice_when_short now x :
  x ≠ EmptyString → (String.length (replace_invalid x) < 180)%nat →
  sanitizeFilename now (sanitizeFilename now x) = sanitizeFilename now x.
Proof.
  intros Hx Hlen.
  pose proof (replace_invalid_form x) as Hform.
  pose proof (replace_invalid_head x Hx) as Hhead.
  assert (sanitizeFilename now x
          = if reservedNames (before_first_dot (replace_invalid x))
            then "_" +:+ replace_invalid x else replace_invalid x) as ->.
  { unfold sanitizeFilename. destruct x as [|c x]; [done|]. cbn [String.length Nat.eqb].
    rewrite limit_length_short by lia. cbv zeta.
    pose proof (head_usable _ Hhead) as Hu. unfold usable in Hu. by rewrite Hu. }
  set (y := replace_invalid x) in *.
  destruct (reservedNames (before_first_dot y)) eqn:Hres.
  - destruct y as [|c y]; [done|].
    assert (is_underscore c = false) as Hc.
    { destruct (is_underscore c) eqn:Hc; [|done]. apply Ascii.eqb_eq in Hc. subst c.
      change (before_first_dot (String "_" y)) with (String "_" (before_first_dot y)) in Hres.
      by rewrite reservedNames_underscore in Hres. }
    destruct Hform as (Hv & Hs & Hd & Hu & Hh & Hl).
    change ("_" +:+ String c y) with (String "_" (String c y)).
    apply sanitizeFilename_fixed.
    + done.
    + split; [by rewrite all_in_cons, Hv|]. split; [by rewrite all_in_cons, Hs|].
      split; [by apply no_pair_cons|]. split; [|by split].
      apply no_pair_cons. split; [|done]. by rewrite Hc, andb_false_r.
    + simpl in Hlen |- *. lia.
    + apply reservedNames_underscore.
  - apply sanitizeFilename_fixed; try done; [by destruct y|lia].
Qed.

(** *** The statements *)

Lemma fallback_when_only_placeholders now rule :
  placeholders_and_separators rule → finish now rule = "default_name_" +:+ of_int now.
Proof.
  intros Hrule. unfold finish. cbv zeta.
  rewrite edge_runs_all; [done|].
  unfold replace_all. do 3 (apply replace_from_all_in; [|done]).
  apply all_in_drop_trailing, all_in_drop_while.
  by apply remove_placeholders_separators.
Qed.

End UtilsFacts.

Import Js Utils UtilsFacts.

(** C7. The long name is cut after its dot by the length limit, which puts
    two dots side by side; sanitizing the result once more merges them, so
    the second pass does not return what the first returned. *)
Theorem sanitize_twice_differs now :
  sanitizeFilename now long_name
  = String.concat EmptyString (repeat "a"%string 175) +:+ "..jpg"
  ∧ sanitizeFilename now (sanitizeFilename now long_name)
    = String.concat EmptyString (repeat "a"%string 175) +:+ ".jpg"
  ∧ sanitizeFilename now (sanitizeFilename now long_name) ≠ sanitizeFilename now long_name.
Proof.
  assert (sanitizeFilename now long_name
          = String.concat EmptyString (repeat "a"%string 175) +:+ "..jpg") as H1
    by (vm_compute; reflexivity).
  assert (sanitizeFilename now (String.concat EmptyString (repeat "a"%string 175) +:+ "..jpg")
          = String.concat EmptyString (repeat "a"%string 175) +:+ ".jpg") as H2
    by (vm_compute; reflexivity).
  rewrite H1, H2. split; [done|]. split; [done|]. vm_compute. discriminate.
Qed.

(** C8, the claim as stated fails: for the empty name the sanitizer returns
    a name built on the clock. *)
Lemma sanitize_reads_the_clock :
  sanitizeFilename 1704456000000 EmptyString = "default_filename_1704456000000"
  ∧ sanitizeFilename 1704456000001 EmptyString = "default_filename_1704456000001"
  ∧ sanitizeFilename 1704456000000 EmptyString ≠ sanitizeFilename 1704456000001 EmptyString.
Proof. split; [by vm_compute|]. split; [by vm_compute|]. vm_compute. discriminate. Qed.

(** C8, amended. For every name that is not empty, what the sanitizer returns
    does not depend on the clock: two calls on the same name return the same
    string. *)
Theorem sanitize_is_deterministic now1 now2 x :
  x ≠ EmptyString → sanitizeFilename now1 x = sanitizeFilename now2 x.
Proof. apply sanitizeFilename_clock. Qed.

Lemma sanitize_is_deterministic_witness :
  sanitizeFilename 1704456000000 "IMG 0001.jpg" = sanitizeFilename 1704456000001 "IMG 0001.jpg".
Proof. apply sanitize_is_deterministic. discriminate. Defined.

(** C9, the claim as stated fails: a template whose only placeholder has no
    token keeps its text and is not turned into the fallback. *)
Lemma unmatched_template_keeps_its_text :
  no_token_matches "photo_{missing}" [("album_name", VString "Trip")]
  ∧ applyTokenToFilename 1704456000000 "photo_{missing}" [("album_name", VString "Trip")]
    = Some "photo"
  ∧ applyTokenToFilename 1704456000000 "photo_{missing}" [("album_name", VString "Trip")]
    ≠ Some ("default_name_" +:+ of_int 1704456000000).
Proof. split; [repeat constructor|]. split; [by vm_compute|]. vm_compute. discriminate. Qed.

(** C9, amended. For every template and every plain tokens of which none has
    its placeholder in the template, the renderer returns a name that is
    never empty and never made of separators only; and when the template is
    nothing but placeholders and separators, that name is the fallback built
    on the clock. *)
Theorem render_unmatched now rule data :
  plain_tokens data = true → no_token_matches rule data →
  ∃ name,
    applyTokenToFilename now rule data = Some name
    ∧ name ≠ EmptyString
    ∧ all_in is_separator name = false
    ∧ (placeholders_and_separators rule → name = "default_name_" +:+ of_int now).
Proof.
  intros Hplain Hdata. eexists. split; [by apply applyTokenToFilename_plain|].
  rewrite replace_tokens_unmatched by done.
  destruct (finish_not_bare now rule) as [Hne Hsep].
  split; [done|]. split; [done|]. apply fallback_when_only_placeholders.
Qed.

Lemma render_unmatched_witness :
  ∃ name,
    applyTokenToFilename 1704456000000 "{year}-{month}_{day}" [("album_name", VString "Trip")]
    = Some name
    ∧ name = "default_name_1704456000000".
Proof.
  destruct (render_unmatched 1704456000000 "{year}-{month}_{day}"
              [("album_name", VString "Trip")]) as (name & Hname & _ & _ & Hfallback).
  - reflexivity.
  - repeat constructor.
  - exists name. split; [exact Hname|]. apply Hfallback.
    apply (pas_placeholder "year" "-{month}_{day}"); [discriminate|reflexivity|].
    apply pas_separator; [reflexivity|].
    apply (pas_placeholder "month" "_{day}"); [discriminate|reflexivity|].
    apply pas_separator; [reflexivity|].
    apply (pas_placeholder "day" ""); [discriminate|reflexivity|].
    apply pas_empty.
Defined.

(** C10. The folder template [{album_name}] rendered with the album name
    [My Trip!] and sanitized gives [My_Trip_]. *)
Theorem folder_of_my_trip now :
  sanitizeFilename now
    <$> applyTokenToFilename now "{album_name}" [("album_name", VString "My Trip!")]
  = Some "My_Trip_".
Proof. vm_compute. reflexivity. Qed.

(** * Facts about the worker *)

Module WorkerFacts.
Import Js Utils UtilsFacts Background Conduct.

#[local] Opaque sanitizeFilename finish replace_token of_int.

(** Two states with the same components are the same. *)
Lemma state_eq (s t : State) :
  downloadedFileIds s = downloadedFileIds t → downloadQueue s = downloadQueue t →
  activeDownloads s = activeDownloads t → currentCollectionName s = currentCollectionName t →
  currentTabId s = currentTabId t → isCancelled s = isCancelled t →
  totalPhotosForCurrentJob s = totalPhotosForCurrentJob t →
  processedPhotosForCurrentJob s = processedPhotosForCurrentJob t →
  storedOptions s = storedOptions t →
  storedFileIds s = storedFileIds t → clock s = clock t → inflight s = inflight t →
  timers s = timers t → optionsPending s = optionsPending t → suspended s = suspended t →
  asked s = asked t → sent s = sent t → started s = started t → s = t.
Proof. destruct s, t; simpl; intros; by subst. Qed.

Lemma notifyPopup_eq msg s :
  notifyPopup msg s
  = set_sent (sent s ++ if truthy_tab (currentTabId s) then [msg] else []) s.
Proof.
  unfold notifyPopup. destruct (truthy_tab _); [done|]. rewrite app_nil_r. by destruct s.
Qed.


Lemma run_invariant (I : State → Prop) (A : Input → Prop) :
  (∀ s i s', I s → A i → step s i = Some s' → I s') →
  ∀ inputs s s', Forall A inputs → I s → run s inputs = Some s' → I s'.
Proof.
  intros Hstep inputs. induction inputs as [|i inputs IH]; intros s s' HA HI Hrun; simpl in Hrun.
  - by injection Hrun as <-.
  - apply Forall_cons in HA as [Hi HA]. destruct (step s i) as [s1|] eqn:Hs; [|done].
    exact (IH s1 s' HA (Hstep _ _ _ HI Hi Hs) Hrun).
Qed.

Lemma run_always (I : State → Prop) :
  (∀ s i s', I s → step s i = Some s' → I s') →
  ∀ inputs s s', I s → run s inputs = Some s' → I s'.
Proof.
  intros Hstep inputs s s' HI Hrun.
  apply (run_invariant I (fun _ => True)) with (inputs := inputs) (s := s); try done.
  - intros. by eapply Hstep.
  - by apply Forall_forall.
Qed.

Lemma length_queueItems now base name tab options date index photos :
  length (queueItems now base name tab options date index photos) = length photos.
Proof. revert index. induction photos as [|p photos IH]; intros index; simpl; [done|]. by rewrite IH. Qed.

Ltac fields :=
  cbn [downloadedFileIds downloadQueue activeDownloads currentCollectionName currentTabId
       isCancelled totalPhotosForCurrentJob processedPhotosForCurrentJob
       storedOptions storedFileIds clock inflight timers optionsPending suspended asked
       sent started
       set_downloadedFileIds set_downloadQueue set_activeDownloads set_currentCollectionName
       set_currentTabId set_isCancelled set_totalPhotosForCurrentJob
       set_processedPhotosForCurrentJob set_storedOptions set_storedFileIds
       set_clock set_inflight set_timers set_optionsPending set_suspended set_asked set_sent
       set_started] in *.

Ltac break_ifs :=
  repeat match goal with |- context [if ?b then _ else _] => destruct b eqn:? end.

(** *** The queue is never drained *)

(** Every call of [startProcessingQueue] throws, and leaves the worker as it
    found it. *)
Lemma startProcessingQueue_throws s : startProcessingQueue s = Thrown not_defined s.
Proof. unfold startProcessingQueue. by break_ifs. Qed.

Lemma folderTokens_plain name date : plain_tokens (folderTokens name date) = true.
Proof. reflexivity. Qed.

Lemma fileTokens_plain item : plain_tokens (fileTokens item) = true.
Proof. reflexivity. Qed.

Lemma length_nil_iff {A} (l : list A) : Nat.eqb (length l) 0 = true ↔ l = [].
Proof. destruct l; simpl; split; (done || discriminate). Qed.

(** [processPhotosDownload] with its options, in closed form. *)
Lemma queuePhotos_closed photos name tab options s :
  queuePhotos photos name tab options s
  = match photosToQueue options (downloadedFileIds s) photos with
    | [] => Returned (nothing_queued photos name s)
    | _ :: _ => Thrown not_defined (queued photos name tab options s)
    end.
Proof.
  unfold queuePhotos, queued, nothing_queued, photosToQueue. cbv zeta.
  rewrite !notifyPopup_eq. fields.
  destruct (if skipDownloaded options then _ else _) as [|p todo] eqn:Htodo; [done|].
  cbn [length Nat.eqb]. fields.
  destruct (Z.of_nat (S (length todo)) =? 0) eqn:Hz; [apply Z.eqb_eq in Hz; lia|].
  rewrite applyTokenToFilename_plain by apply folderTokens_plain.
  rewrite startProcessingQueue_throws. done.
Qed.

Ltac crunch :=
  unfold reported, ending, albumResolved, processPhotosDownload, getOptions in *;
  cbv zeta; fields; rewrite ?queuePhotos_closed in *; fields;
  repeat match goal with
         | |- context [match photosToQueue ?o ?l ?p with _ => _ end] =>
             destruct (photosToQueue o l p) eqn:?; cbv beta iota
         | |- context [if ?b then _ else _] =>
             lazymatch b with
             | truthy_tab _ => fail
             | _ => destruct b eqn:?; cbv beta iota
             end
         end;
  unfold queued, nothing_queued in *; cbv zeta; rewrite ?notifyPopup_eq in *; fields.

(** The cases of a step of a worker that owes no download, no timer and no
    read of the options for the queue. *)
Ltac unarmed_cases Hin Htm Hop Hstep :=
  match type of Hstep with
  | step ?s ?i = Some ?s' =>
      destruct i; cbn [step] in Hstep; cbv zeta in Hstep;
      rewrite ?Hin, ?Htm, ?Hop in Hstep; try discriminate Hstep;
      try match type of Hstep with
          | context [suspended s !! ?j] =>
              let Hj := fresh "Hj" in
              destruct (suspended s !! j) as [[]|] eqn:Hj; try discriminate Hstep
          end;
      try match type of Hstep with
          | context [albumResolved _ _ ?r _] => destruct r
          end;
      injection Hstep as <-
  end.

(** Whatever happens to such a worker, it owes none afterwards; it starts no
    download, and its ledger and the copy in storage stay as they are. *)
Lemma unarmed_step s i s' :
  inflight s = [] → timers s = [] → optionsPending s = O → step s i = Some s' →
  (inflight s' = [] ∧ timers s' = [] ∧ optionsPending s' = O)
  ∧ started s' = started s
  ∧ activeDownloads s' = activeDownloads s
  ∧ downloadedFileIds s' = downloadedFileIds s
  ∧ storedFileIds s' = storedFileIds s.
Proof.
  intros Hin Htm Hop Hstep. unarmed_cases Hin Htm Hop Hstep; crunch; repeat split; done.
Qed.

(** Its counters: the photos processed stay at 0 once there, and the total
    is never negative. *)
Lemma counters_step s i s' :
  inflight s = [] → timers s = [] → optionsPending s = O → step s i = Some s' →
  processedPhotosForCurrentJob s = 0 → 0 ≤ totalPhotosForCurrentJob s →
  processedPhotosForCurrentJob s' = 0 ∧ 0 ≤ totalPhotosForCurrentJob s'.
Proof.
  intros Hin Htm Hop Hstep Hp Ht.
  unarmed_cases Hin Htm Hop Hstep; crunch; repeat split; try done; lia.
Qed.

(** In the course of a job the options are not asked for, a cancellation is
    not taken back, and no request comes to wait. *)
Lemma same_job_step s i s' :
  inflight s = [] → timers s = [] → optionsPending s = O → step s i = Some s' →
  same_job i →
  asked s' = asked s
  ∧ (isCancelled s = true → isCancelled s' = true)
  ∧ (length (suspended s') ≤ length (suspended s))%nat.
Proof.
  intros Hin Htm Hop Hstep Hi.
  unarmed_cases Hin Htm Hop Hstep; try done; crunch; repeat split; try done;
    rewrite ?length_app, ?length_delete by (by eexists); cbn [length]; try lia.
  apply lookup_lt_Some in Hj. lia.
Qed.

Lemma from_initial ids options now inputs s :
  run (initial ids options now) inputs = Some s →
  never_dispatched s ∧ 0 ≤ totalPhotosForCurrentJob s
  ∧ downloadedFileIds s = ids ∧ storedFileIds s = ids.
Proof.
  apply (run_always (fun s => never_dispatched s ∧ 0 ≤ totalPhotosForCurrentJob s
                              ∧ downloadedFileIds s = ids ∧ storedFileIds s = ids)).
  - intros t i t' ((Hin & Htm & Hop & Hst & Hact & Hpr) & Htot & Hids & Hstored) Hstep.
    destruct (unarmed_step t i t' Hin Htm Hop Hstep) as ((? & ? & ?) & ? & ? & ? & ?).
    destruct (counters_step t i t' Hin Htm Hop Hstep Hpr Htot) as [? ?].
    unfold never_dispatched. repeat split; congruence.
  - unfold never_dispatched. repeat split; simpl; done.
Qed.

(** *** The options of a job *)












End WorkerFacts.

(** * The statements of the design document about the worker *)

Import Js Utils Background Conduct WorkerFacts.

(** C1. A job of one photo requested from a post and cancelled before its
    options arrive: the popup is told that the job is cancelled and, when
    the options arrive, that it failed. The job is over, nothing is owed to
    it, and it has ended twice. *)
Theorem cancelled_request_ends_twice :
  ∃ s,
    run (initial ∅ defaultOptions noon)
      [DownloadPhotosFromPost [photo "a"] "7" (Some 4); CancelDownload; JobOptionsRead 0]
    = Some s
    ∧ idle s
    ∧ sent s
      = [downloadCancelled "post_7"; downloadProgress 0 1 "post_7";
         downloadProgress 0 1 "post_7"; downloadError "isDownloading is not defined"]
    ∧ List.filter terminal (sent s)
      = [downloadCancelled "post_7"; downloadError "isDownloading is not defined"].
Proof.
  eexists. split; [vm_compute; reflexivity|]. split; [by repeat split|].
  split; vm_compute; reflexivity.
Qed.

(** C2. A photo requested on its own and cancelled before its options
    arrive: nothing is under way when the popup is told of the cancellation,
    and the progress of the job is sent twice after it. *)
Theorem progress_after_cancelled :
  ∃ s0 s,
    run (initial ∅ defaultOptions noon)
      [DownloadSinglePhoto "https://scontent.example/b.jpg" "b" (Some 4) "b.jpg";
       CancelDownload]
    = Some s0
    ∧ sent s0 = [downloadCancelled "photo_b"]
    ∧ activeDownloads s0 = 0 ∧ inflight s0 = []
    ∧ step s0 (JobOptionsRead 0) = Some s
    ∧ sent s
      = [downloadCancelled "photo_b"; downloadProgress 0 1 "photo_b";
         downloadProgress 0 1 "photo_b"; downloadError "isDownloading is not defined"].
Proof.
  eexists. eexists. split; [vm_compute; reflexivity|]. split; [vm_compute; reflexivity|].
  split; [reflexivity|]. split; [reflexivity|]. split; vm_compute; reflexivity.
Qed.

(** C3, the claim as stated fails: the worker has one flag for the
    cancellation, and the request of a job lowers it. An album job is
    cancelled while the resolver is at work; a photo is requested next, and
    the flag is down although the album job still waits; when the resolver
    comes back, the album job goes on as if it had not been cancelled. *)
Lemma request_takes_the_cancellation_back :
  ∃ s1 s2 s3,
    run (initial ∅ defaultOptions noon)
      [DownloadAlbum "12" (Some 4) "Summer"; JobOptionsRead 0; CancelDownload] = Some s1
    ∧ isCancelled s1 = true
    ∧ step s1 (DownloadSinglePhoto "https://scontent.example/b.jpg" "b" (Some 4) "b.jpg")
      = Some s2
    ∧ isCancelled s2 = false
    ∧ suspended s2 !! 0%nat = Some (AwaitAlbumInfo "12" "Summer" (Some 4) defaultOptions)
    ∧ step s2 (AlbumInfoArrived 0 (AlbumFound "Summer" [photo "a"])) = Some s3
    ∧ sent s3
      = [downloadCancelled "Summer"; downloadProgress 0 1 "Summer";
         downloadProgress 0 1 "Summer";
         downloadError "Failed to fetch album: isDownloading is not defined"]
    ∧ q_id <$> downloadQueue s3 = ["a"].
Proof.
  eexists. eexists. eexists. split; [vm_compute; reflexivity|]. split; [reflexivity|].
  split; [vm_compute; reflexivity|]. split; [reflexivity|]. split; [reflexivity|].
  split; [vm_compute; reflexivity|]. split; vm_compute; reflexivity.
Qed.

(** C3, amended. In every state the worker goes through, whatever happens to
    it: the photos processed are not more than the total; the downloads
    under way, and the count the worker keeps of them, are not more than the
    limit of any options (a limit that is not negative); and the flag of the
    cancellation, once up, stays up until a job is requested: nothing but
    the request of a job lowers it. *)
Theorem job_state_invariant ids options now inputs s :
  run (initial ids options now) inputs = Some s →
  0 ≤ processedPhotosForCurrentJob s ≤ totalPhotosForCurrentJob s
  ∧ (∀ o, 0 ≤ concurrentDownloads o →
       Z.of_nat (length (inflight s)) ≤ concurrentDownloads o
       ∧ activeDownloads s ≤ concurrentDownloads o)
  ∧ (∀ i s', same_job i → step s i = Some s' → isCancelled s = true → isCancelled s' = true).
Proof.
  intros Hrun.
  destruct (from_initial ids options now inputs s Hrun)
    as ((Hin & Htm & Hop & Hst & Hact & Hpr) & Htot & _).
  split; [lia|]. split.
  - intros o Ho. rewrite Hin, Hact. simpl. lia.
  - intros i s' Hi Hstep. by destruct (same_job_step s i s' Hin Htm Hop Hstep Hi) as (_ & ? & _).
Qed.

Lemma job_state_invariant_witness :
  ∃ s,
    run (initial ∅ defaultOptions noon)
      [DownloadPhotosFromPost [photo "a"; photo "b"] "7" (Some 4); JobOptionsRead 0;
       CancelDownload] = Some s
    ∧ totalPhotosForCurrentJob s = 2
    ∧ 0 ≤ processedPhotosForCurrentJob s ≤ totalPhotosForCurrentJob s
    ∧ Z.of_nat (length (inflight s)) ≤ concurrentDownloads defaultOptions
    ∧ ∀ now s', step s (Tick now) = Some s' → isCancelled s' = true.
Proof.
  eexists. split; [vm_compute; reflexivity|]. split; [reflexivity|].
  match goal with |- 0 ≤ processedPhotosForCurrentJob ?s ≤ _ ∧ _ =>
    destruct (job_state_invariant ∅ defaultOptions noon
                [DownloadPhotosFromPost [photo "a"; photo "b"] "7" (Some 4); JobOptionsRead 0;
                 CancelDownload] s) as (Hcount & Hlimit & Hflag)
  end.
  - vm_compute. reflexivity.
  - split; [exact Hcount|]. split.
    + apply (Hlimit defaultOptions). simpl. lia.
    + intros now s' Hstep. by apply (Hflag (Tick now) s').
Defined.





(** * More about the sanitizer *)

Module SanitizerFacts.
Import Js Utils UtilsFacts.

Lemma all_in_substring P n s :
  all_in P s = true → all_in P (String.substring 0 n s) = true.
Proof.
  revert s. induction n as [|n IH]; intros [|c s]; simpl; try done.
  intros H. apply andb_true_iff in H as [-> H]. by apply IH.
Qed.

Lemma find_match_all_in P m st s e :
  find_match m st s = Some e → all_in P s = true → all_in P e = true.
Proof.
  revert st. induction s as [|c s IH]; intros st; [done|]. cbn [find_match].
  destruct (m st (String c s)) as [n|].
  - intros Heq H.
    assert (e = String.substring 0 n (String c s)) as -> by congruence.
    by apply all_in_substring.
  - intros He H. cbn [all_in] in H. apply andb_true_iff in H as [_ H]. by apply (IH false).
Qed.

Lemma limit_length_all_in P s : all_in P s = true → all_in P (limit_length s) = true.
Proof.
  intros Hs. unfold limit_length.
  destruct (maxLength <? Z.of_nat (String.length s)); [|done].
  rewrite all_in_app. apply andb_true_iff. split.
  - unfold substring0. apply all_in_substring.
    destruct (Nat.eqb _ 0); [done|]. by apply all_in_substring.
  - destruct (find_match m_extension true s) as [e|] eqn:He; [|done].
    by apply (find_match_all_in _ _ _ _ _ He).
Qed.

Lemma substring_whole s : String.substring 0 (String.length s) s = s.
Proof. induction s as [|c s IH]; simpl; [done|]. by rewrite IH. Qed.

(** What [\.[^.]+$] finds: a dot and, up to the end, characters that are no
    dots, at least one. *)
Lemma find_match_extension st s e :
  find_match m_extension st s = Some e →
  ∃ t, e = String "." t ∧ all_in not_dot t = true ∧ t ≠ EmptyString
       ∧ (String.length e ≤ String.length s)%nat.
Proof.
  revert st. induction s as [|c s IH]; intros st; [done|]. cbn [find_match].
  destruct (m_extension st (String c s)) as [n|] eqn:Hm.
  - intros [= <-]. unfold m_extension in Hm.
    destruct (Ascii.eqb_spec c ".") as [->|Hc];
      [|by destruct c as [[] [] [] [] [] [] [] []]].
    destruct (Nat.leb 1 _ && Nat.eqb _ _)%bool eqn:Hn; [|done]. injection Hm as <-.
    apply andb_true_iff in Hn as [H1 Hn]. apply Nat.eqb_eq in Hn. apply Nat.leb_le in H1.
    exists s. cbn [String.substring]. rewrite Hn, substring_whole.
    split; [done|]. split; [by apply run_length_all|]. split; [|done].
    destruct s; [simpl in H1; lia|done].
  - intros He. destruct (IH false He) as (t & -> & Ht & Hne & Hlen).
    exists t. repeat split; try done. simpl in Hlen |- *. lia.
Qed.

(** The length limit brings the name down to 180 characters, unless the
    extension alone is longer: then the extension is all that is left. *)
Lemma limit_length_length s :
  (String.length (limit_length s) ≤ 180)%nat
  ∨ ∃ t, limit_length s = String "." t ∧ all_in not_dot t = true
         ∧ (180 ≤ String.length t)%nat.
Proof.
  unfold limit_length, maxLength.
  destruct (180 <? Z.of_nat (String.length s)) eqn:Hlen; [|apply Z.ltb_ge in Hlen; left; lia].
  apply Z.ltb_lt in Hlen.
  destruct (find_match m_extension true s) as [e|] eqn:He.
  - destruct (find_match_extension _ _ _ He) as (t & -> & Ht & Hne & Hle).
    cbn [String.length Nat.eqb] in Hle |- *.
    destruct (decide (S (String.length t) ≤ 180)%nat) as [Hsmall|Hbig].
    + left. rewrite str_length_app. unfold substring0. rewrite !length_substring0.
      cbn [String.length]. lia.
    + right. exists t. unfold substring0 at 1.
      replace (Z.to_nat (180 - Z.of_nat (S (String.length t)))) with O by lia.
      split; [by destruct (substring0 _ s)|]. split; [done|lia].
  - left. cbn [String.length Nat.eqb]. rewrite str_length_app. unfold substring0.
    rewrite length_substring0. cbn [String.length].
    change (Z.to_nat (180 - Z.of_nat 0)) with 180%nat. lia.
Qed.

Lemma replace_from_length m x st b s k :
  (String.length x ≤ 1)%nat →
  (String.length (replace_from m (lit x) st b s k) ≤ String.length s)%nat.
Proof.
  intros Hx. revert st b k. induction s as [|c s IH]; intros st b k; [done|].
  cbn [replace_from]. destruct k as [|k].
  - destruct (m st (String c s)) as [[|n]|].
    + specialize (IH false (b +:+ String c EmptyString) O). cbn [String.length]. lia.
    + specialize (IH false (b +:+ String c EmptyString) n). unfold lit at 1.
      rewrite str_length_app. cbn [String.length]. lia.
    + specialize (IH false (b +:+ String c EmptyString) O). cbn [String.length]. lia.
  - specialize (IH false (b +:+ String c EmptyString) k). cbn [String.length]. lia.
Qed.

(** None of the five replacements makes the name longer. *)
Lemma replace_invalid_length x :
  (String.length (replace_invalid x) ≤ String.length x)%nat.
Proof.
  unfold replace_invalid, replace_all.
  repeat (etrans; [apply replace_from_length; simpl; lia|]). done.
Qed.

Lemma replace_all_keeps_head m x c s :
  (∀ n, m true (String c s) = Some (S n) → x = String c EmptyString) →
  ∃ out, replace_all m (lit x) (String c s) = String c out.
Proof.
  intros Hm. unfold replace_all. cbn [replace_from].
  destruct (m true (String c s)) as [[|n]|]; eauto.
  rewrite (Hm n eq_refl). unfold lit. cbn [String.append]. eauto.
Qed.

(** A leading underscore stays where it is. *)
Lemma replace_invalid_underscore s :
  ∃ out, replace_invalid (String "_" s) = String "_" out.
Proof.
  unfold replace_invalid.
  destruct (replace_all_keeps_head (m_class is_invalid_char) "_" "_" s) as [o1 ->]; [done|].
  destruct (replace_all_keeps_head (m_run is_dot 2) "." "_" o1) as [o2 ->]; [done|].
  destruct (replace_all_keeps_head (m_edge_runs is_dot) "_" "_" o2) as [o3 ->]; [done|].
  destruct (replace_all_keeps_head (m_run is_space 1) "_" "_" o3) as [o4 ->]; [done|].
  destruct (replace_all_keeps_head (m_run is_underscore 2) "_" "_" o4) as [o5 ->]; [done|].
  eauto.
Qed.

(** The sanitizer on a name that is not empty: the result of the
    replacements and of the length limit, with an underscore before it when
    its first part is a reserved name. *)
Lemma sanitizeFilename_eq now x :
  x ≠ EmptyString →
  let y := limit_length (replace_invalid x) in
  usable y
  ∧ sanitizeFilename now x = if reservedNames (before_first_dot y) then "_" +:+ y else y.
Proof.
  intros Hx y.
  pose proof (limit_length_usable _ (replace_invalid_head x Hx)) as Hu. fold y in Hu.
  split; [done|]. unfold sanitizeFilename. fold y.
  destruct x as [|c x]; [done|]. cbn [String.length Nat.eqb].
  unfold usable in Hu. by rewrite Hu.
Qed.

(** The sanitized name of a name that is not empty has no character of the
    class the sanitizer replaces, and the fallback test lets it through. *)
Lemma sanitized_valid now x :
  x ≠ EmptyString →
  all_in valid_char (sanitizeFilename now x) = true ∧ usable (sanitizeFilename now x).
Proof.
  intros Hx. destruct (sanitizeFilename_eq now x Hx) as [Hu ->].
  destruct (replace_invalid_form x) as (Hv & _).
  apply (limit_length_all_in valid_char) in Hv.
  destruct (reservedNames _); [|done].
  change ("_" +:+ limit_length (replace_invalid x))
    with (String "_" (limit_length (replace_invalid x))).
  by rewrite all_in_cons, Hv.
Qed.

End SanitizerFacts.

Import Js Utils UtilsFacts SanitizerFacts.

(** The sanitized name of a name that is not empty is one path component:
    it has no character of the class the sanitizer replaces (so no slash, no
    backslash, no colon, no control character), no white space, it is not
    empty, not a dot and not two dots, and what precedes its first dot is no
    reserved device name. *)
Theorem sanitize_gives_a_path_component now x :
  x ≠ EmptyString →
  all_in valid_char (sanitizeFilename now x) = true
  ∧ all_in not_space (sanitizeFilename now x) = true
  ∧ usable (sanitizeFilename now x)
  ∧ reservedNames (before_first_dot (sanitizeFilename now x)) = false.
Proof.
  intros Hx. destruct (sanitizeFilename_eq now x Hx) as [Hu ->].
  destruct (replace_invalid_form x) as (Hv & Hs & _).
  apply (limit_length_all_in valid_char) in Hv. apply (limit_length_all_in not_space) in Hs.
  set (y := limit_length (replace_invalid x)) in *.
  destruct (reservedNames (before_first_dot y)) eqn:Hres; [|done].
  change ("_" +:+ y) with (String "_" y). rewrite !all_in_cons, Hv, Hs.
  repeat split; try done.
  change (before_first_dot (String "_" y)) with (String "_" (before_first_dot y)).
  apply reservedNames_underscore.
Qed.

Lemma sanitize_gives_a_path_component_witness :
  all_in valid_char (sanitizeFilename 0 "a/b: c?.jpg") = true
  ∧ all_in not_space (sanitizeFilename 0 "a/b: c?.jpg") = true
  ∧ usable (sanitizeFilename 0 "a/b: c?.jpg")
  ∧ reservedNames (before_first_dot (sanitizeFilename 0 "a/b: c?.jpg")) = false.
Proof. apply (sanitize_gives_a_path_component 0 "a/b: c?.jpg"). done. Defined.

(** The sanitized name has at most 180 characters, or 181 when the
    underscore of the reserved names comes before 180; the one exception is
    a name whose extension alone goes beyond the limit: what is returned
    then is that extension, a dot followed by 180 characters or more. *)
Theorem sanitize_length now x :
  x ≠ EmptyString →
  (String.length (sanitizeFilename now x) ≤ 181)%nat
  ∨ ∃ t, sanitizeFilename now x = String "." t ∧ all_in not_dot t = true
         ∧ (180 ≤ String.length t)%nat.
Proof.
  intros Hx. destruct (sanitizeFilename_eq now x Hx) as [_ ->].
  destruct (limit_length_length (replace_invalid x)) as [Hle|(t & -> & Ht & Hlen)].
  - left. destruct (reservedNames _); [|lia]. rewrite str_length_app. simpl. lia.
  - right. exists t. done.
Qed.

Lemma sanitize_length_witness :
  (String.length (sanitizeFilename 0 "CON.txt") ≤ 181)%nat
  ∨ ∃ t, sanitizeFilename 0 "CON.txt" = String "." t ∧ all_in not_dot t = true
         ∧ (180 ≤ String.length t)%nat.
Proof. apply (sanitize_length 0 "CON.txt"). done. Defined.

(** Both exceptions to the limit of 180 happen. *)
Example sanitize_beyond_the_limit now :
  String.length
    (sanitizeFilename now ("CON." +:+ String.concat EmptyString (repeat "a"%string 176)))
  = 181%nat
  ∧ sanitizeFilename now ("a." +:+ String.concat EmptyString (repeat "b"%string 200))
    = "." +:+ String.concat EmptyString (repeat "b"%string 200).
Proof. split; vm_compute; reflexivity. Qed.

(** A name that is not empty and shorter than 180 characters: sanitizing it
    twice gives what sanitizing it once gives. *)
Theorem sanitize_twice_short_name now x :
  x ≠ EmptyString → (String.length x < 180)%nat →
  sanitizeFilename now (sanitizeFilename now x) = sanitizeFilename now x.
Proof.
  intros Hx Hlen. apply sanitize_twice_when_short; [done|].
  pose proof (replace_invalid_length x). lia.
Qed.

Lemma sanitize_twice_short_name_witness :
  sanitizeFilename 0 (sanitizeFilename 0 "..my  photo*.jpg..")
  = sanitizeFilename 0 "..my  photo*.jpg..".
Proof. apply (sanitize_twice_short_name 0 "..my  photo*.jpg.."); [done|simpl; lia]. Defined.

(** The names of at most 180 characters the sanitizer returns as they are
    are those of the sanitized shape whose first part is no reserved name. *)
Theorem sanitize_fixed_names now x :
  x ≠ EmptyString → (String.length x ≤ 180)%nat →
  sanitizeFilename now x = x
  ↔ sanitized_form x ∧ reservedNames (before_first_dot x) = false.
Proof.
  intros Hx Hlen. split.
  - destruct (sanitizeFilename_eq now x Hx) as [_ ->].
    pose proof (replace_invalid_length x) as Hle.
    rewrite limit_length_short by lia.
    destruct (reservedNames (before_first_dot (replace_invalid x))) eqn:Hres.
    + intros Heq. exfalso. rewrite <- Heq in Hres at 1.
      change ("_" +:+ replace_invalid x) with (String "_" (replace_invalid x)) in Hres.
      destruct (replace_invalid_underscore (replace_invalid x)) as [out Hout].
      rewrite Hout in Hres.
      change (before_first_dot (String "_" out)) with (String "_" (before_first_dot out))
        in Hres.
      by rewrite reservedNames_underscore in Hres.
    + intros Heq. rewrite Heq in Hres. split; [|done]. rewrite <- Heq.
      apply replace_invalid_form.
  - intros [Hform Hres]. by apply sanitizeFilename_fixed.
Qed.

Lemma sanitize_fixed_names_witness :
  sanitizeFilename 0 "001_photo.jpg" = "001_photo.jpg"
  ↔ sanitized_form "001_photo.jpg" ∧ reservedNames (before_first_dot "001_photo.jpg") = false.
Proof. apply (sanitize_fixed_names 0 "001_photo.jpg"); [done|simpl; lia]. Defined.

(** * More about the renderer *)

Module RendererFacts.
Import Js Utils UtilsFacts Rules.

Lemma no_placeholder_occurs t rule :
  no_placeholder rule → occurs (String "{" t) rule = false.
Proof.
  unfold no_placeholder. induction rule as [|c rule IH]; [done|]. cbn [all_in occurs].
  intros H. apply andb_true_iff in H as [Hc H]. rewrite IH by done.
  unfold is_open_brace in Hc. apply negb_true_iff, Ascii.eqb_neq in Hc.
  rewrite orb_false_r. cbn [String.prefix]. by destruct (ascii_dec "{" c).
Qed.

Lemma no_placeholder_tokens rule data :
  no_placeholder rule → fold_left replace_token data rule = rule.
Proof.
  intros Hrule. apply replace_tokens_unmatched. apply Forall_forall. intros entry _.
  by apply no_placeholder_occurs.
Qed.

Lemma unmatched_placeholder st s : no_placeholder s → unmatched m_placeholder st s.
Proof.
  unfold no_placeholder. revert st. induction s as [|c s IH]; intros st H; [done|].
  cbn [all_in] in H. apply andb_true_iff in H as [Hc H]. split; [|by apply IH].
  unfold is_open_brace in Hc. apply negb_true_iff, Ascii.eqb_neq in Hc.
  unfold m_placeholder. by destruct c as [[] [] [] [] [] [] [] []].
Qed.

Lemma drop_while_outside P s : starts_outside P s → drop_while P s = s.
Proof. destruct s as [|c s]; [done|]. simpl. by intros ->. Qed.

Lemma last_in_all P s : last_in P s = false → s = EmptyString ∨ all_in P s = false.
Proof.
  intros Hl. destruct s as [|c s]; [by left|]. right.
  destruct (all_in P (String c s)) eqn:Ha; [|done].
  apply all_in_last in Ha; [congruence|done].
Qed.

Lemma drop_trailing_kept P s : last_in P s = false → drop_trailing P s = s.
Proof.
  induction s as [|c s IH]; [done|]. intros Hl. cbn [drop_trailing].
  destruct (last_in_all P _ Hl) as [?| ->]; [done|]. f_equal. apply IH.
  destruct s as [|d s]; [done|]. by rewrite last_in_cons in Hl.
Qed.

(** The removal of the runs at the two ends is the removal of the longest
    prefix and of the longest suffix in the class. *)
Lemma edge_runs_inner P b s :
  replace_from (m_edge_runs P) (lit EmptyString) false b s O = drop_trailing P s.
Proof.
  revert b. induction s as [|c s IH]; intros b; [done|]. cbn [drop_trailing].
  destruct (all_in P (String c s)) eqn:Ha.
  - pose proof (all_in_run_length _ _ Ha) as Hrun.
    assert (m_edge_runs P false (String c s) = Some (S (String.length s))) as Hm.
    { unfold m_edge_runs. rewrite Hrun. cbn [String.length Nat.eqb]. by rewrite Nat.eqb_refl. }
    rewrite (replace_from_match _ _ _ _ _ _ _ Hm). unfold lit at 1. cbn [String.append].
    by apply replace_from_exhaust.
  - assert (m_edge_runs P false (String c s) = None) as Hm.
    { unfold m_edge_runs. destruct (Nat.eqb _ 0); [done|].
      destruct (Nat.eqb (run_length P (String c s)) (String.length (String c s))) eqn:He;
        [|done].
      apply Nat.eqb_eq, run_length_all in He. congruence. }
    rewrite replace_from_no_match by done. by rewrite IH.
Qed.

Lemma drop_while_run P s : drop_while P s = str_drop (run_length P s) s.
Proof. induction s as [|c s IH]; [done|]. simpl. by destruct (P c). Qed.

Lemma edge_runs_trim P s :
  replace_all (m_edge_runs P) (lit EmptyString) s = drop_trailing P (drop_while P s).
Proof.
  unfold replace_all. destruct s as [|c s]; [done|]. destruct (P c) eqn:Hc.
  - rewrite (replace_from_match _ _ _ _ _ _ _ (m_edge_runs_start P c s Hc)).
    unfold lit at 1. cbn [String.append drop_while]. rewrite Hc, drop_while_run.
    destruct (run_length P s) as [|k]; [apply edge_runs_inner|].
    rewrite replace_from_skip. apply edge_runs_inner.
  - rewrite replace_from_no_match by by apply m_edge_runs_outside.
    cbn [drop_while]. rewrite Hc. cbn [drop_trailing all_in]. rewrite Hc. cbn [andb].
    by rewrite edge_runs_inner.
Qed.

Lemma drop_while_starts P s : starts_outside P (drop_while P s).
Proof. induction s as [|c s IH]; [done|]. simpl. destruct (P c) eqn:Hc; [done|]. by simpl. Qed.

Lemma no_pair_tail P c s : no_pair P (String c s) → no_pair P s.
Proof. intros H. by apply no_pair_cons in H as [_ H]. Qed.

Lemma drop_while_no_pair P Q s : no_pair P s → no_pair P (drop_while Q s).
Proof.
  induction s as [|c s IH]; [done|]. intros H. simpl. destruct (Q c); [|done].
  by apply IH, (no_pair_tail _ c).
Qed.

Lemma drop_trailing_inner P s : ∀ c,
  all_in P (String c s) = false → no_pair P (String c s) →
  last_in P (String c (drop_trailing P s)) = false
  ∧ no_pair P (String c (drop_trailing P s)).
Proof.
  induction s as [|d s IH]; intros c Ha Hp.
  - cbn in Ha |- *. rewrite andb_true_r in Ha. by rewrite Ha.
  - cbn [drop_trailing]. destruct (all_in P (String d s)) eqn:Hd.
    + cbn [all_in] in Ha, Hd. rewrite Hd, andb_true_r in Ha. cbn [last_in]. done.
    + apply no_pair_cons in Hp as [Hcd Hp].
      destruct (IH d Hd Hp) as [Hl Hn]. split.
      * by rewrite last_in_cons.
      * by apply no_pair_cons.
Qed.

Lemma drop_trailing_shape P s :
  starts_outside P s → no_pair P s →
  starts_outside P (drop_trailing P s) ∧ last_in P (drop_trailing P s) = false
  ∧ no_pair P (drop_trailing P s).
Proof.
  destruct s as [|c s]; [done|]. intros Hc Hp. cbn [drop_trailing].
  destruct (all_in P (String c s)) eqn:Ha; [done|].
  split; [done|]. by apply drop_trailing_inner.
Qed.

(** What the replacement of the runs of two separators or more and the
    removal of the separators at the two ends leave. *)
Lemma separators_cleaned z :
  separated
    (replace_all (m_edge_runs is_separator) (lit EmptyString)
       (replace_all (m_run is_separator 2) (lit "_") z)).
Proof.
  rewrite edge_runs_trim.
  set (y := replace_all (m_run is_separator 2) (lit "_") z).
  assert (no_pair is_separator y) as Hy.
  { unfold y, replace_all. by apply (collapse_no_pair is_separator "_" (String.length z)). }
  apply drop_trailing_shape; [apply drop_while_starts|by apply drop_while_no_pair].
Qed.

Lemma no_pair_weaken (P Q : ascii → bool) s :
  (∀ c, P c = true → Q c = true) → no_pair Q s → no_pair P s.
Proof.
  intros HPQ. induction s as [|c s IH]; [done|]. intros H.
  apply no_pair_cons in H as [Hc H]. apply no_pair_cons. split; [|by apply IH].
  destruct s as [|d s]; [done|].
  destruct (P c) eqn:Hpc, (P d) eqn:Hpd; try done.
  by rewrite (HPQ c), (HPQ d) in Hc.
Qed.

End RendererFacts.

Import Js Utils UtilsFacts Rules RendererFacts.

(** A rule without placeholder renders to the same name whatever the plain
    tokens are. *)
Theorem render_without_placeholder now rule data data' :
  plain_tokens data = true → plain_tokens data' = true → no_placeholder rule →
  applyTokenToFilename now rule data = Some (finish now rule)
  ∧ applyTokenToFilename now rule data' = Some (finish now rule).
Proof.
  intros Hdata Hdata' Hrule. rewrite !applyTokenToFilename_plain by done.
  by rewrite !no_placeholder_tokens.
Qed.

Lemma render_without_placeholder_witness :
  applyTokenToFilename 0 "holiday" [("index", VString "001")] = Some (finish 0 "holiday")
  ∧ applyTokenToFilename 0 "holiday" [("index", VString "002")] = Some (finish 0 "holiday").
Proof. apply (render_without_placeholder 0 "holiday"); reflexivity. Defined.

(** With plain tokens the renderer returns a name, and that name is the
    fallback name, or a name that is not empty, has no separator at either
    end and no two separators side by side. *)
Theorem render_is_separated now rule data :
  plain_tokens data = true →
  ∃ name,
    applyTokenToFilename now rule data = Some name
    ∧ (name = "default_name_" +:+ of_int now ∨ name ≠ EmptyString ∧ separated name).
Proof.
  intros Hdata. eexists. split; [by apply applyTokenToFilename_plain|].
  unfold finish. cbv zeta.
  match goal with |- context [replace_all (m_edge_runs is_separator) (lit EmptyString) ?z] =>
    match z with replace_all (m_run is_separator 2) (lit "_") ?y =>
      generalize (separators_cleaned y)
    end;
    generalize (replace_all (m_edge_runs is_separator) (lit EmptyString) z)
  end.
  intros r Hr. destruct r as [|c r]; [by left|]. right. done.
Qed.

Lemma render_is_separated_witness :
  ∃ name,
    applyTokenToFilename 0 "__{album_name}--{year}_" [("album_name", VString "a_-_b")]
    = Some name
    ∧ (name = "default_name_" +:+ of_int 0 ∨ name ≠ EmptyString ∧ separated name).
Proof. apply (render_is_separated 0). reflexivity. Defined.

(** A rule without placeholder that is not empty, has no white space at
    either end and is separated already is rendered as it is, whatever the
    plain tokens are. *)
Theorem render_plain_rule now rule data :
  plain_tokens data = true →
  rule ≠ EmptyString → no_placeholder rule → trimmed rule → separated rule →
  applyTokenToFilename now rule data = Some rule.
Proof.
  intros Hdata Hne Hrule [Hts Htl] (Hs & Hl & Hp).
  rewrite applyTokenToFilename_plain by done. f_equal. unfold finish. cbv zeta.
  rewrite no_placeholder_tokens by done. unfold replace_all.
  rewrite (replace_unmatched m_placeholder) by by apply unmatched_placeholder.
  unfold trim. rewrite drop_while_outside, drop_trailing_kept by done.
  rewrite (replace_unmatched (m_run is_underscore 2)).
  2: { apply unmatched_run_2. apply (no_pair_weaken _ is_separator); [|done].
       intros c Hc. unfold is_separator. by rewrite Hc, orb_true_r. }
  rewrite (replace_unmatched (m_run is_hyphen 2)).
  2: { apply unmatched_run_2. apply (no_pair_weaken _ is_separator); [|done].
       intros c Hc. unfold is_separator. by rewrite Hc. }
  rewrite (replace_unmatched (m_run is_separator 2)) by by apply unmatched_run_2.
  rewrite (replace_unmatched (m_edge_runs is_separator)) by by apply unmatched_edge_runs.
  by destruct rule.
Qed.

Lemma render_plain_rule_witness :
  applyTokenToFilename 0 "my album-2024" [("year", VNumber 2024)] = Some "my album-2024".
Proof.
  apply (render_plain_rule 0 "my album-2024"); [reflexivity|done|reflexivity|by split|].
  repeat split; reflexivity.
Defined.

(** * The name taken from an address *)

Module OriginalNameFacts.
Import Js Utils UtilsFacts Regex OriginalName.

Lemma runs_suffix P s rest : rest ∈ runs P s → ∃ pre, s = pre +:+ rest.
Proof.
  induction s as [|c s IH]; [by intros ?%elem_of_nil|]. cbn [runs].
  destruct (P c); [|by intros ?%elem_of_nil].
  intros [H|H%list_elem_of_singleton]%elem_of_app.
  - destruct (IH H) as [pre ->]. by exists (String c pre).
  - subst. by exists (String c EmptyString).
Qed.

Lemma append_assoc (a b c : string) : (a +:+ b) +:+ c = a +:+ (b +:+ c).
Proof. induction a as [|x a IH]; [done|]. rewrite !append_cons. by rewrite IH. Qed.

Lemma matches_suffix r : ∀ s rest, rest ∈ matches r s → ∃ pre, s = pre +:+ rest.
Proof.
  induction r as [P|P|a IHa b IHb|a IHa]; intros s rest; cbn [matches].
  - destruct s as [|c s]; [by intros ?%elem_of_nil|].
    destruct (P c); [|by intros ?%elem_of_nil].
    intros ->%list_elem_of_singleton. by exists (String c EmptyString).
  - apply runs_suffix.
  - intros (mid & Hrest & Hmid)%list_elem_of_bind.
    destruct (IHa _ _ Hmid) as [p1 ->]. destruct (IHb _ _ Hrest) as [p2 ->].
    exists (p1 +:+ p2). by rewrite append_assoc.
  - intros [H|H%list_elem_of_singleton]%elem_of_app; [by apply IHa|].
    subst. by exists EmptyString.
Qed.

Lemma matches_closes_segment r :
  closes_segment r → ∀ s rest, rest ∈ matches r s → ∃ pre, s = pre +:+ String "/" rest.
Proof.
  induction r as [P|P|a _ b IHb|a _]; intros Hr s rest; cbn [matches]; try done.
  - destruct s as [|c s]; [by intros ?%elem_of_nil|].
    destruct (P c) eqn:Hc; [|by intros ?%elem_of_nil].
    intros ->%list_elem_of_singleton. rewrite (Hr c Hc). by exists EmptyString.
  - intros (mid & Hrest & Hmid)%list_elem_of_bind.
    destruct (matches_suffix _ _ _ Hmid) as [p1 ->].
    destruct (IHb Hr _ _ Hrest) as [p2 ->].
    exists (p1 +:+ p2). by rewrite append_assoc.
Qed.

Lemma split_nonempty sep s : split sep s ≠ [].
Proof.
  induction s as [|c s IH]; [done|]. cbn [split].
  destruct (Ascii.eqb c sep); [done|]. by destruct (split sep s).
Qed.

Lemma last_split_cons sep c s :
  Ascii.eqb c sep = false →
  last (split sep (String c s)) = String c <$> last (split sep s)
  ∨ last (split sep (String c s)) = last (split sep s) ∧ (2 ≤ length (split sep s))%nat.
Proof.
  intros Hc. cbn [split]. rewrite Hc.
  pose proof (split_nonempty sep s) as Hne.
  destruct (split sep s) as [|x [|y rest]]; [done|by left|].
  right. split; [done|simpl; lia].
Qed.

(** What precedes a separator does not change the last part. *)
Lemma last_split_after sep pre rest :
  last (split sep (pre +:+ String sep rest)) = last (split sep rest)
  ∧ (2 ≤ length (split sep (pre +:+ String sep rest)))%nat.
Proof.
  pose proof (split_nonempty sep rest) as Hne.
  induction pre as [|c pre [IH Hlen]].
  - rewrite append_empty. cbn [split]. rewrite Ascii.eqb_refl.
    destruct (split sep rest) as [|x l]; [done|]. split; [done|simpl; lia].
  - rewrite append_cons. cbn [split]. destruct (Ascii.eqb c sep).
    + destruct (split sep (pre +:+ String sep rest)) as [|x l]; [simpl in Hlen; lia|].
      split; [by rewrite <- IH|simpl; lia].
    + destruct (split sep (pre +:+ String sep rest)) as [|x [|y l]]; try (simpl in Hlen; lia).
      split; [by rewrite <- IH|simpl; lia].
Qed.

Lemma strip_last_segment r s :
  closes_segment r → last (split "/" (strip r s)) = last (split "/" s).
Proof.
  intros Hr. unfold strip, match_at.
  destruct (matches r s) as [|rest l] eqn:Hm; [done|]. cbn [head].
  destruct (matches_closes_segment r Hr s rest) as [pre ->]; [rewrite Hm; left|].
  symmetry. apply last_split_after.
Qed.

(** *** Decoding *)

Lemma occurs_char c d s :
  occurs (String c EmptyString) (String d s)
  = Ascii.eqb c d || occurs (String c EmptyString) s.
Proof.
  cbn [occurs String.prefix]. destruct (ascii_dec c d) as [->|Hcd].
  - rewrite Ascii.eqb_refl. by destruct s.
  - apply Ascii.eqb_neq in Hcd. by rewrite Hcd.
Qed.

Lemma prefix_refl s : String.prefix s s = true.
Proof. induction s as [|c s IH]; [done|]. cbn [String.prefix]. by destruct (ascii_dec c c). Qed.

Lemma occurs_app_r part a : occurs part (a +:+ part) = true.
Proof.
  induction a as [|c a IH].
  - rewrite append_empty. destruct part as [|d part]; [done|]. cbn [occurs].
    by rewrite prefix_refl.
  - rewrite append_cons. cbn [occurs]. by rewrite IH, orb_true_r.
Qed.

Lemma emit_text c d s : emit c d = Text s → ∃ s', d = Text s' ∧ s = String c s'.
Proof. destruct d; try done. intros [= <-]. eauto. Qed.

Lemma emit_wide_text d s : emit_wide d ≠ Text s.
Proof. by destruct d. Qed.

(** Without a percent sign there is nothing to decode. *)
Lemma decode_no_escape s : no_escape s → decodeURIComponent s = Text s.
Proof.
  unfold no_escape, decodeURIComponent. intros Hs.
  assert (∃ l, units s = Some l ∧ decode l = Text s) as (l & -> & Hl); [|done].
  induction s as [|c s IH]; [by exists []|].
  cbn [all_in] in Hs. apply andb_true_iff in Hs as [Hc Hs].
  destruct (IH Hs) as (l & Hu & Hl). exists (Plain c :: l).
  cbn [units]. unfold is_percent in Hc. apply negb_true_iff in Hc. rewrite Hc, Hu.
  split; [done|]. cbn [decode]. by rewrite Hl.
Qed.

Lemma hex_digit_dot : hex_digit "." = None.
Proof. done. Qed.

(** A dot of the input is a unit of its own. *)
Lemma units_dot n : ∀ s l,
  (String.length s ≤ n)%nat → units s = Some l →
  occurs "." s = true → Plain "." ∈ l.
Proof.
  induction n as [|n IH]; intros [|c s] l Hn; try done; [simpl in Hn; lia|].
  cbn [units]. destruct (Ascii.eqb c "%") eqn:Hc.
  - apply Ascii.eqb_eq in Hc. subst c.
    destruct s as [|a [|b s]]; try done.
    destruct (hex_digit a) as [x|] eqn:Ha; [|done].
    destruct (hex_digit b) as [y|] eqn:Hb; [|done].
    destruct (units s) as [l'|] eqn:Hu; [|done]. intros [= <-].
    rewrite !occurs_char.
    destruct (Ascii.eqb_spec "." a) as [<-|_]; [by rewrite hex_digit_dot in Ha|].
    destruct (Ascii.eqb_spec "." b) as [<-|_]; [by rewrite hex_digit_dot in Hb|].
    cbn [orb]. intros Ho. apply elem_of_cons. right.
    apply (IH s); [simpl in Hn; lia|done|done].
  - destruct (units s) as [l'|] eqn:Hu; [|done]. intros [= <-].
    rewrite occurs_char. intros Ho. apply elem_of_cons.
    destruct (Ascii.eqb_spec "." c) as [<-|_]; [by left|]. right.
    apply (IH s); [simpl in Hn; lia|done|done].
Qed.

(** A plain unit is a character of the decoded text. *)
Lemma decode_plain c n : ∀ l s,
  (length l ≤ n)%nat → decode l = Text s → Plain c ∈ l →
  occurs (String c EmptyString) s = true.
Proof.
  induction n as [|n IH]; intros [|u l] s Hn; try (by intros _ ?%elem_of_nil);
    [simpl in Hn; lia|].
  cbn [length] in Hn. destruct u as [d|b]; cbn [decode].
  - intros (s' & Hs' & ->)%emit_text Hin. rewrite occurs_char.
    apply elem_of_cons in Hin as [[= ->]|Hin]; [by rewrite Ascii.eqb_refl|].
    rewrite (IH l s') by (done || lia). by rewrite orb_true_r.
  - intros Hd Hin. apply elem_of_cons in Hin as [?|Hin]; [done|]. revert Hd.
    repeat case_match; try done; try (by intros ?%emit_wide_text); subst.
    + intros (s' & Hs' & ->)%emit_text. rewrite occurs_char.
      rewrite (IH l s') by (done || lia). by rewrite orb_true_r.
    + intros (s' & Hs' & ->)%emit_text. rewrite occurs_char.
      match goal with H : continuation _ _ ?u = true |- _ => destruct u; [done|] end.
      apply elem_of_cons in Hin as [?|Hin]; [done|].
      match goal with H : decode ?l' = Text s' |- _ =>
        rewrite (IH l' s') by (done || (simpl in Hn; lia))
      end.
      by rewrite orb_true_r.
Qed.

Lemma decode_keeps_dot e s :
  decodeURIComponent e = Text s → includes "." e = true → includes "." s = true.
Proof.
  unfold decodeURIComponent, includes. destruct (units e) as [l|] eqn:Hu; [|done].
  intros Hd He. apply (decode_plain "." (length l) l); [done|done|].
  by apply (units_dot (String.length e) e).
Qed.

Lemma occurs_app_l part a b : occurs part b = true → occurs part (a +:+ b) = true.
Proof.
  intros Hb. induction a as [|c a IH]; [done|].
  rewrite append_cons. cbn [occurs]. by rewrite IH, orb_true_r.
Qed.

Lemma extension_cases p :
  extension p = ".png" ∨ extension p = ".gif" ∨ extension p = ".webp"
  ∨ extension p = ".jpg".
Proof. unfold extension. repeat case_match; auto. Qed.

Lemma encoded_name_dot now u : includes "." (encoded_name now u) = true.
Proof.
  unfold encoded_name. cbv zeta.
  match goal with |- includes "." (if negb (includes "." ?f) then _ else _) = true =>
    destruct (includes "." f) eqn:Hf
  end; [done|]. by apply occurs_app_l.
Qed.

Lemma closes_cdn_version : closes_segment cdn_version.
Proof. cbn. intros c Hc. symmetry. by apply Ascii.eqb_eq. Qed.

Lemma closes_cdn_size letter : closes_segment (cdn_size letter).
Proof. cbn. intros c Hc. symmetry. by apply Ascii.eqb_eq. Qed.

Lemma clean_pathname_last p : last_segment (clean_pathname p) = last_segment p.
Proof.
  unfold last_segment, clean_pathname.
  by rewrite !strip_last_segment by (apply closes_cdn_version || apply closes_cdn_size).
Qed.

Lemma generic_false f :
  generic f = false → includes "." f = true.
Proof.
  unfold generic. intros H. repeat (apply orb_false_iff in H as [H ?]).
  by apply negb_false_iff.
Qed.

(** The name before decoding, for a last segment that is not generic: the
    segment. *)
Lemma encoded_name_plain now u :
  generic (last_segment (pathname u)) = false →
  encoded_name now u = last_segment (pathname u).
Proof.
  intros Hg. unfold encoded_name. cbv zeta.
  change (default EmptyString (last (split "/" (clean_pathname (pathname u)))))
    with (last_segment (clean_pathname (pathname u))).
  rewrite clean_pathname_last, Hg. by rewrite (generic_false _ Hg).
Qed.

(** And for a generic one, when the query has an [oe] that is not empty:
    the value of [oe] with the extension of the path. *)
Lemma encoded_name_generic now u v :
  generic (last_segment (pathname u)) = true →
  get "oe" (searchParams u) = Some v → v ≠ EmptyString →
  encoded_name now u = v +:+ extension (pathname u).
Proof.
  intros Hg Hoe Hv. unfold encoded_name. cbv zeta.
  change (default EmptyString (last (split "/" (clean_pathname (pathname u)))))
    with (last_segment (clean_pathname (pathname u))).
  rewrite clean_pathname_last, Hg. unfold potentialName. rewrite Hoe.
  destruct v as [|c v]; [done|]. cbn [truthy or_value default from_option id].
  assert (includes "." (String c v +:+ extension (pathname u)) = true) as ->; [|done].
  apply occurs_app_l.
  by destruct (extension_cases (pathname u)) as [-> | [-> | [-> | ->]]].
Qed.

End OriginalNameFacts.

Import Js Utils UtilsFacts Regex OriginalName OriginalNameFacts.

(** The removal of the patterns of the CDN at the head of the path never
    changes the segment the name is taken from: it is the last segment of
    the path as it stands. *)
Theorem clean_pathname_keeps_last_segment pathname :
  last (split "/" (clean_pathname pathname)) = last (split "/" pathname).
Proof.
  unfold clean_pathname.
  by rewrite !strip_last_segment by (apply closes_cdn_version || apply closes_cdn_size).
Qed.

(** The name returned always has a dot, so it is never empty: the
    alternative the callers put after the call is never taken. *)
Theorem original_name_has_a_dot now url s :
  getOriginalNameFromUrl now url = Some s → includes "." s = true ∧ s ≠ EmptyString.
Proof.
  intros Hs. assert (includes "." s = true) as Hdot; [|split; [done|by destruct s]].
  assert (includes "." ("photo_" +:+ of_int now +:+ ".jpg") = true) as Hfb.
  { by do 2 apply occurs_app_l. }
  unfold getOriginalNameFromUrl in Hs. destruct url as [u|]; [|by injection Hs as <-].
  destruct (decodeURIComponent (encoded_name now u)) as [s'| |] eqn:Hd; [| |done].
  - injection Hs as <-. apply (decode_keeps_dot _ _ Hd), encoded_name_dot.
  - by injection Hs as <-.
Qed.

Lemma original_name_has_a_dot_witness :
  includes "." "my photo.jpg" = true ∧ "my photo.jpg" ≠ EmptyString.
Proof.
  apply (original_name_has_a_dot 0
           (Some {| pathname := "/t39.30808-6/my%20photo.jpg"; searchParams := [] |})).
  reflexivity.
Defined.

(** A last segment that is not generic and has no percent sign is the name
    returned. *)
Theorem plain_segment_is_the_name now u :
  generic (last_segment (pathname u)) = false →
  no_escape (last_segment (pathname u)) →
  getOriginalNameFromUrl now (Some u) = Some (last_segment (pathname u)).
Proof.
  intros Hg He. unfold getOriginalNameFromUrl.
  by rewrite encoded_name_plain, decode_no_escape.
Qed.

Lemma plain_segment_is_the_name_witness :
  getOriginalNameFromUrl 0
    (Some {| pathname := "/v/t39.30808-6/123_456_n.jpg"; searchParams := [("oe", "65AB")] |})
  = Some "123_456_n.jpg".
Proof.
  apply (plain_segment_is_the_name 0
           {| pathname := "/v/t39.30808-6/123_456_n.jpg"; searchParams := [("oe", "65AB")] |});
    reflexivity.
Defined.

(** A last segment that is not generic and has a percent sign without two
    hexadecimal digits after it cannot be decoded: the name returned is the
    fallback [photo_<now>.jpg]. *)
Theorem malformed_segment_gives_fallback now u :
  generic (last_segment (pathname u)) = false →
  units (last_segment (pathname u)) = None →
  getOriginalNameFromUrl now (Some u) = Some (fallback_name now).
Proof.
  intros Hg He. unfold getOriginalNameFromUrl, decodeURIComponent.
  by rewrite encoded_name_plain, He.
Qed.

Lemma malformed_segment_gives_fallback_witness :
  getOriginalNameFromUrl 7 (Some {| pathname := "/albums/100%.jpg"; searchParams := [] |})
  = Some (fallback_name 7).
Proof.
  apply (malformed_segment_gives_fallback 7
           {| pathname := "/albums/100%.jpg"; searchParams := [] |}); reflexivity.
Defined.

(** For a generic last segment and a query whose [oe] is not empty and has
    no percent sign, the name returned is the value of [oe] followed by the
    extension of the path: [.png], [.gif] or [.webp] when the path ends
    with it, whatever the case of its letters, and [.jpg] otherwise. *)
Theorem generic_segment_takes_oe now u v :
  generic (last_segment (pathname u)) = true →
  get "oe" (searchParams u) = Some v → v ≠ EmptyString → no_escape v →
  getOriginalNameFromUrl now (Some u) = Some (v +:+ extension (pathname u)).
Proof.
  intros Hg Hoe Hv He. unfold getOriginalNameFromUrl.
  rewrite (encoded_name_generic now u v) by done.
  rewrite decode_no_escape; [done|]. unfold no_escape in *. rewrite all_in_app, He.
  by destruct (extension_cases (pathname u)) as [-> | [-> | [-> | ->]]].
Qed.

Lemma generic_segment_takes_oe_witness :
  getOriginalNameFromUrl 0
    (Some {| pathname := "/v/t1.6435-9/0a1b2c3d_4e5f.PNG"; searchParams := [("oe", "65AB12CD")] |})
  = Some "65AB12CD.png".
Proof.
  apply (generic_segment_takes_oe 0
           {| pathname := "/v/t1.6435-9/0a1b2c3d_4e5f.PNG";
              searchParams := [("oe", "65AB12CD")] |} "65AB12CD"); try reflexivity. done.
Defined.

(** * More about the worker *)

Module ConductFacts.
Import Js Utils Background UtilsFacts WorkerFacts SanitizerFacts Rules RendererFacts Conduct.

#[local] Opaque sanitizeFilename finish replace_token of_int.

Lemma usable_nonempty s : usable s → s ≠ EmptyString.
Proof. unfold usable. by destruct s. Qed.

Lemma component_sanitized now x : x ≠ EmptyString → component (sanitizeFilename now x).
Proof. intros Hx. by apply sanitized_valid. Qed.

Lemma queueItems_folders now base name tab options date index photos :
  base ≠ EmptyString →
  Forall (fun item => component (q_baseFolderName item))
    (queueItems now base name tab options date index photos).
Proof.
  intros Hb. revert index. induction photos as [|p photos IH]; intros index; cbn [queueItems];
    constructor; [by apply component_sanitized|apply IH].
Qed.

Lemma ids_queueItems now base name tab options date index photos :
  q_id <$> queueItems now base name tab options date index photos = p_id <$> photos.
Proof.
  revert index. induction photos as [|p photos IH]; intros index; simpl; [done|]. by rewrite IH.
Qed.

Lemma indices_queueItems now base name tab options date index photos :
  q_index <$> queueItems now base name tab options date index photos
  = (fun k => index + Z.of_nat k) <$> seq 1 (length photos).
Proof.
  revert index. induction photos as [|p photos IH]; intros index; [done|].
  cbn [queueItems fmap list_fmap length seq q_index]. f_equal; try lia.
  rewrite IH, <- (fmap_S_seq 1 (length photos)), <- list_fmap_compose.
  apply list_fmap_ext. intros _ k _. cbn [compose]. lia.
Qed.

Lemma folder_not_empty options name date : folder options name date ≠ EmptyString.
Proof. unfold folder. apply finish_not_bare. Qed.

(** *** The request of a job *)

Lemma queued_flag photos name tab options s :
  isCancelled (queued photos name tab options s) = isCancelled s.
Proof. unfold queued. cbv zeta. rewrite !notifyPopup_eq. by fields. Qed.

(** The request of a job on an idle worker, in closed form. *)
Lemma request_closed j s0 :
  idle s0 → resolved j →
  run s0 (request j)
  = Some (job_end j
            (queuePhotos (job_photos j) (job_name (getTime (clock s0)) j) (job_tab j)
               (storedOptions s0) (prepared j s0))).
Proof.
  intros (_ & _ & _ & Hs) Hj. destruct j as [albumId tab fromPopup albumName photos| |];
    cbn [request run step]; cbv zeta; unfold processPhotosDownload, getOptions; fields;
    rewrite Hs; cbn [app lookup list_lookup delete list_delete]; fields;
    cbn [app lookup list_lookup delete list_delete run]; unfold prepared; cbv zeta;
    cbn [job_photos job_name job_tab].
  - unfold albumResolved, processPhotosDownload. fields.
    destruct photos as [|p photos]; [done|]. cbn [length Nat.eqb]. fields.
    match goal with
    | |- Some (match queuePhotos ?p ?n ?t ?o ?u with _ => _ end)
         = Some (job_end _ (queuePhotos _ _ _ _ ?v)) =>
        replace v with u by (apply state_eq; fields; done)
    end.
    rewrite queuePhotos_closed. unfold job_end.
    destruct (photosToQueue _ _ _); [done|]. rewrite queued_flag. by fields.
  - unfold reported, job_end. cbn [job_error]. do 2 f_equal; try (apply state_eq; fields; done).
  - unfold reported, job_end. cbn [job_error]. do 2 f_equal; try (apply state_eq; fields; done).
Qed.

Lemma prepared_fields j s0 :
  downloadedFileIds (prepared j s0) = downloadedFileIds s0
  ∧ currentTabId (prepared j s0) = job_tab j
  ∧ sent (prepared j s0) = sent s0
  ∧ clock (prepared j s0) = clock s0
  ∧ holdings (prepared j s0) = holdings s0
  ∧ (inflight (prepared j s0) = inflight s0 ∧ timers (prepared j s0) = timers s0
     ∧ optionsPending (prepared j s0) = optionsPending s0 ∧ suspended (prepared j s0) = []).
Proof. by destruct j. Qed.

(** *** What a step sends and queues *)

Lemma silent_step s i s' :
  inflight s = [] → timers s = [] → optionsPending s = O → step s i = Some s' →
  truthy_tab (currentTabId s) = false → without_tab i →
  truthy_tab (currentTabId s') = false ∧ sent s' = sent s.
Proof.
  intros Hin Htm Hop Hstep Htab Hi. cbn [without_tab] in Hi.
  unarmed_cases Hin Htm Hop Hstep; crunch; rewrite ?Htab, ?Hi, ?app_nil_r; done.
Qed.

Lemma progress_step s i s' :
  inflight s = [] → timers s = [] → optionsPending s = O → step s i = Some s' →
  ∃ new, sent s' = sent s ++ new ∧ Forall progress_at_start new.
Proof.
  intros Hin Htm Hop Hstep.
  unarmed_cases Hin Htm Hop Hstep; crunch; rewrite <- ?app_assoc;
    try (by exists []; rewrite app_nil_r);
    (eexists; split; [done|]); rewrite ?Forall_app; repeat split;
    destruct (truthy_tab _); repeat constructor; lia.
Qed.

Lemma queue_step s i s' :
  inflight s = [] → timers s = [] → optionsPending s = O → step s i = Some s' →
  downloadQueue s' = downloadQueue s ∨ downloadQueue s' = []
  ∨ ∃ options name tab date photos,
      downloadQueue s'
      = queueItems (getTime date) (folder options name date) name tab options date 0 photos.
Proof.
  intros Hin Htm Hop Hstep.
  unarmed_cases Hin Htm Hop Hstep; crunch; try (by left); try (by right; left);
    right; right; by eexists _, _, _, _, _.
Qed.



Lemma prepared_queue j s0 : downloadQueue (prepared j s0) = downloadQueue s0.
Proof. by destruct j. Qed.

End ConductFacts.

Import Js Utils Background UtilsFacts WorkerFacts SanitizerFacts Rules RendererFacts Conduct
  ConductFacts.

(** The folder of every item in the queue is one component of a path: it
    has no character the sanitizer replaces and is neither empty nor a dot
    nor two dots. *)
Theorem queued_folders_are_path_components ids options now inputs s :
  run (initial ids options now) inputs = Some s →
  Forall (fun item => component (q_baseFolderName item)) (downloadQueue s).
Proof.
  intros Hrun.
  cut ((inflight s = [] ∧ timers s = [] ∧ optionsPending s = O)
       ∧ Forall (fun item => component (q_baseFolderName item)) (downloadQueue s));
    [by intros [_ ?]|].
  revert Hrun.
  apply (run_always
           (fun t => (inflight t = [] ∧ timers t = [] ∧ optionsPending t = O)
                     ∧ Forall (fun item => component (q_baseFolderName item))
                         (downloadQueue t))); [|by repeat split].
  intros t i t' ((Hin & Htm & Hop) & Hq) Hstep.
  destruct (unarmed_step t i t' Hin Htm Hop Hstep) as (? & _). split; [done|].
  destruct (queue_step t i t' Hin Htm Hop Hstep)
    as [-> | [-> | (o & name & tab & date & photos & ->)]]; [done|constructor|].
  apply queueItems_folders, folder_not_empty.
Qed.

Lemma queued_folders_are_path_components_witness :
  ∃ s,
    run (initial ∅ defaultOptions noon)
      (request (AlbumJob "12" (Some 4) "" "..Summer: 2024?" [photo "a"; photo "b"])) = Some s
    ∧ q_baseFolderName <$> downloadQueue s = ["_Summer_2024"; "_Summer_2024"]
    ∧ Forall (fun item => component (q_baseFolderName item)) (downloadQueue s).
Proof.
  eexists. split; [vm_compute; reflexivity|]. split; [vm_compute; reflexivity|].
  match goal with |- Forall _ (downloadQueue ?s) =>
    apply (queued_folders_are_path_components ∅ defaultOptions noon
             (request (AlbumJob "12" (Some 4) "" "..Summer: 2024?" [photo "a"; photo "b"])) s)
  end.
  vm_compute. reflexivity.
Defined.

(** Whatever happens to the worker from the moment it is loaded, its ledger
    and the copy of it in storage are what storage held at that moment. *)
Theorem ledger_never_changes ids options now inputs s :
  run (initial ids options now) inputs = Some s →
  downloadedFileIds s = ids ∧ storedFileIds s = ids.
Proof.
  intros Hrun.
  cut ((inflight s = [] ∧ timers s = [] ∧ optionsPending s = O)
       ∧ downloadedFileIds s = ids ∧ storedFileIds s = ids); [by intros [_ ?]|].
  revert Hrun.
  apply (run_always
           (fun t => (inflight t = [] ∧ timers t = [] ∧ optionsPending t = O)
                     ∧ downloadedFileIds t = ids ∧ storedFileIds t = ids)); [|by repeat split].
  intros t i t' ((Hin & Htm & Hop) & Hl & Hc) Hstep.
  destruct (unarmed_step t i t' Hin Htm Hop Hstep) as (? & _ & _ & ? & ?).
  split; [done|]. split; congruence.
Qed.

Lemma ledger_never_changes_witness :
  ∃ s,
    run (initial {[ "z" ]} defaultOptions noon)
      (request (PostJob [photo "a"] "7" (Some 4)) ++ [CancelDownload]
       ++ request (PostJob [photo "a"] "7" (Some 4))) = Some s
    ∧ downloadedFileIds s = {[ "z" ]} ∧ storedFileIds s = {[ "z" ]}.
Proof.
  eexists. split; [vm_compute; reflexivity|].
  match goal with |- downloadedFileIds ?s = _ ∧ _ =>
    apply (ledger_never_changes {[ "z" ]} defaultOptions noon
             (request (PostJob [photo "a"] "7" (Some 4)) ++ [CancelDownload]
              ++ request (PostJob [photo "a"] "7" (Some 4))) s)
  end.
  vm_compute. reflexivity.
Defined.

(** A worker whose requests carry no tab sends the popup nothing. *)
Theorem no_tab_no_message ids options now inputs s :
  Forall without_tab inputs → run (initial ids options now) inputs = Some s → sent s = [].
Proof.
  intros Hin Hrun.
  cut ((inflight s = [] ∧ timers s = [] ∧ optionsPending s = O)
       ∧ truthy_tab (currentTabId s) = false ∧ sent s = []); [by intros (_ & _ & ?)|].
  apply (run_invariant
           (fun t => (inflight t = [] ∧ timers t = [] ∧ optionsPending t = O)
                     ∧ truthy_tab (currentTabId t) = false ∧ sent t = []) without_tab)
    with (inputs := inputs) (s := initial ids options now); try done.
  intros t i t' ((Hi1 & Hi2 & Hi3) & Htab & Hsent) Hi Hstep.
  destruct (unarmed_step t i t' Hi1 Hi2 Hi3 Hstep) as (? & _).
  destruct (silent_step t i t' Hi1 Hi2 Hi3 Hstep Htab Hi) as [? ?].
  split; [done|]. split; congruence.
Qed.

Lemma no_tab_no_message_witness :
  ∃ s,
    run (initial ∅ defaultOptions noon)
      [DownloadPhotosFromPost [photo "a"] "7" None; JobOptionsRead 0; CancelDownload] = Some s
    ∧ q_id <$> downloadQueue s = []
    ∧ totalPhotosForCurrentJob s = 1
    ∧ sent s = [].
Proof.
  eexists. split; [vm_compute; reflexivity|]. split; [vm_compute; reflexivity|].
  split; [reflexivity|].
  match goal with |- sent ?s = [] =>
    apply (no_tab_no_message ∅ defaultOptions noon
             [DownloadPhotosFromPost [photo "a"] "7" None; JobOptionsRead 0; CancelDownload] s)
  end.
  - repeat constructor.
  - vm_compute. reflexivity.
Defined.

(** Every progress the worker sends stands at 0 of a total that is not
    negative: the progress of a job never advances. *)
Theorem progress_never_advances ids options now inputs s :
  run (initial ids options now) inputs = Some s → Forall progress_at_start (sent s).
Proof.
  intros Hrun.
  cut ((inflight s = [] ∧ timers s = [] ∧ optionsPending s = O)
       ∧ Forall progress_at_start (sent s)); [by intros [_ ?]|].
  revert Hrun.
  apply (run_always
           (fun t => (inflight t = [] ∧ timers t = [] ∧ optionsPending t = O)
                     ∧ Forall progress_at_start (sent t))); [|by repeat split].
  intros t i t' ((Hin & Htm & Hop) & Hsent) Hstep.
  destruct (unarmed_step t i t' Hin Htm Hop Hstep) as (? & _). split; [done|].
  destruct (progress_step t i t' Hin Htm Hop Hstep) as (new & -> & Hnew).
  by apply Forall_app.
Qed.

Lemma progress_never_advances_witness :
  ∃ s,
    run (initial ∅ defaultOptions noon)
      (request (PostJob [photo "a"; photo "b"] "7" (Some 4))
       ++ request (AlbumJob "12" (Some 4) "" "Summer" [photo "c"])) = Some s
    ∧ List.filter is_progress (sent s)
      = [downloadProgress 0 2 "post_7"; downloadProgress 0 2 "post_7";
         downloadProgress 0 1 "Summer"; downloadProgress 0 1 "Summer"]
    ∧ Forall progress_at_start (sent s).
Proof.
  eexists. split; [vm_compute; reflexivity|]. split; [vm_compute; reflexivity|].
  match goal with |- Forall _ (sent ?s) =>
    apply (progress_never_advances ∅ defaultOptions noon
             (request (PostJob [photo "a"; photo "b"] "7" (Some 4))
              ++ request (AlbumJob "12" (Some 4) "" "Summer" [photo "c"])) s)
  end.
  vm_compute. reflexivity.
Defined.

(** Whatever happens to the worker from the moment it is loaded, it
    dispatches no download: none is under way, none was started, the
    counters of the downloads stand at 0, and no outcome of a download, no
    timer and no read of the options for the queue has a step. *)
Theorem no_download_is_ever_started ids options now inputs s :
  run (initial ids options now) inputs = Some s →
  never_dispatched s
  ∧ (∀ i o, step s (Settled i o) = None)
  ∧ step s QueueOptionsRead = None
  ∧ (∀ k, step s (TimerFired k) = None).
Proof.
  intros Hrun.
  cut (never_dispatched s).
  { intros Hs. split; [done|]. destruct Hs as (Hin & Htm & Hop & _).
    cbn [step]. rewrite Hin, Htm, Hop. done. }
  revert Hrun. apply (run_always never_dispatched); [|by repeat split].
  intros t i t' (Hin & Htm & Hop & Hst & Hact & Hpr) Hstep.
  destruct (unarmed_step t i t' Hin Htm Hop Hstep) as ((? & ? & ?) & Hst' & Hact' & _).
  unfold never_dispatched. repeat split; try congruence.
  unarmed_cases Hin Htm Hop Hstep; crunch; done.
Qed.

Lemma no_download_is_ever_started_witness :
  ∃ s,
    run (initial ∅ defaultOptions noon)
      (request (AlbumJob "12" (Some 4) "" "Summer" [photo "a"; photo "b"])) = Some s
    ∧ q_id <$> downloadQueue s = ["a"; "b"]
    ∧ never_dispatched s
    ∧ step s (Settled 0 Saved) = None.
Proof.
  eexists. split; [vm_compute; reflexivity|]. split; [vm_compute; reflexivity|].
  match goal with |- never_dispatched ?s ∧ _ =>
    destruct (no_download_is_ever_started ∅ defaultOptions noon
                (request (AlbumJob "12" (Some 4) "" "Summer" [photo "a"; photo "b"])) s)
      as (Hnever & Hsettled & _)
  end.
  - vm_compute. reflexivity.
  - split; [exact Hnever|apply Hsettled].
Defined.


(** What the request of a job with photos to download leaves behind: the
    photos left once those of the ledger are skipped are in the queue, in
    their order and numbered from 1 on, the total of the job is their
    number and none is processed; and the worker is idle, so that nothing
    is owed that would take them out of the queue. *)
Theorem queue_of_a_job j s0 s :
  idle s0 → resolved j →
  photosToQueue (storedOptions s0) (downloadedFileIds s0) (job_photos j) ≠ [] →
  run s0 (request j) = Some s →
  q_id <$> downloadQueue s
  = p_id <$> photosToQueue (storedOptions s0) (downloadedFileIds s0) (job_photos j)
  ∧ q_index <$> downloadQueue s
    = Z.of_nat
      <$> seq 1 (length (photosToQueue (storedOptions s0) (downloadedFileIds s0)
                           (job_photos j)))
  ∧ totalPhotosForCurrentJob s
    = Z.of_nat (length (photosToQueue (storedOptions s0) (downloadedFileIds s0)
                          (job_photos j)))
  ∧ processedPhotosForCurrentJob s = 0
  ∧ idle s.
Proof.
  intros Hidle Hj Htodo Hrun. rewrite (request_closed j s0 Hidle Hj) in Hrun.
  injection Hrun as <-. destruct Hidle as (Hin & Htm & Hop & Hsus).
  destruct (prepared_fields j s0) as (Eids & _ & _ & _ & _ & Ein & Etm & Eop & Esus).
  rewrite queuePhotos_closed, Eids.
  destruct (photosToQueue (storedOptions s0) (downloadedFileIds s0) (job_photos j))
    as [|p todo] eqn:Htodo'; [done|].
  unfold job_end, queued. cbv zeta. rewrite !notifyPopup_eq. fields.
  rewrite Eids, Htodo', ids_queueItems, indices_queueItems.
  split; [done|]. split; [apply list_fmap_ext; intros _ k _; lia|].
  split; [done|]. split; [done|]. unfold idle. fields. by rewrite Ein, Etm, Eop, Esus.
Qed.

Lemma queue_of_a_job_witness :
  ∃ s,
    run (initial {[ "b" ]} defaultOptions noon)
      (request (PostJob [photo "a"; photo "b"; photo "c"] "7" (Some 4))) = Some s
    ∧ q_id <$> downloadQueue s = ["a"; "c"]
    ∧ q_index <$> downloadQueue s = [1; 2]
    ∧ idle s.
Proof.
  eexists.
  match goal with |- run ?s0 (request ?j) = Some ?s ∧ _ =>
    assert (run s0 (request j) = Some s) as Hrun by (vm_compute; reflexivity);
    destruct (queue_of_a_job j s0 s) as (Hids & Hindices & _ & _ & Hidle)
  end.
  - by repeat split.
  - exact I.
  - vm_compute. discriminate.
  - exact Hrun.
  - split; [exact Hrun|]. split; [rewrite Hids; vm_compute; reflexivity|].
    split; [rewrite Hindices; vm_compute; reflexivity|exact Hidle].
Defined.





(** A job with nothing to queue, its photos all in the ledger or none at
    all: the request sends the progress at 0 of the number of its photos and
    the end of the job at once, and leaves the worker as quiescent as it
    was, its holdings untouched. *)
Theorem nothing_to_queue_completes_at_once j s0 s :
  quiescent s0 → resolved j → truthy_tab (job_tab j) = true →
  photosToQueue (storedOptions s0) (downloadedFileIds s0) (job_photos j) = [] →
  run s0 (request j) = Some s →
  sent s
  = sent s0
    ++ [downloadProgress 0 (Z.of_nat (length (job_photos j)))
          (job_name (getTime (clock s0)) j);
        downloadComplete (job_name (getTime (clock s0)) j)
          "All photos already downloaded or collection is empty."]
  ∧ holdings s = holdings s0 ∧ quiescent s.
Proof.
  intros (Hqueue & Hin & Htm & Hop & Hsus) Hj Htab Hnone Hrun.
  rewrite (request_closed j s0) in Hrun by done. injection Hrun as <-.
  destruct (prepared_fields j s0) as (Eids & Etab & Esent & _ & Ehold & Ein & Etm & Eop & Esus).
  rewrite queuePhotos_closed, Eids, Hnone.
  unfold job_end, nothing_queued. cbv zeta. rewrite !notifyPopup_eq. fields.
  rewrite Etab, Htab, Esent, <- !app_assoc. split; [done|].
  split; [exact Ehold|]. unfold quiescent. fields.
  by rewrite prepared_queue, Ein, Etm, Eop, Esus.
Qed.

Lemma nothing_to_queue_completes_at_once_witness :
  ∃ s,
    run (initial {[ "a"; "b" ]} defaultOptions noon)
      (request (AlbumJob "12" (Some 4) "" "Summer" [photo "a"; photo "b"])) = Some s
    ∧ sent s
      = [downloadProgress 0 2 "Summer";
         downloadComplete "Summer" "All photos already downloaded or collection is empty."]
    ∧ quiescent s.
Proof.
  eexists.
  match goal with |- run ?s0 (request ?j) = Some ?s ∧ _ =>
    assert (run s0 (request j) = Some s) as Hrun by (vm_compute; reflexivity);
    destruct (nothing_to_queue_completes_at_once j s0 s) as (Hsent & _ & Hquiet)
  end.
  - repeat split.
  - discriminate.
  - reflexivity.
  - vm_compute. reflexivity.
  - exact Hrun.
  - split; [exact Hrun|]. split; [exact Hsent|exact Hquiet].
Defined.



(** * The options the page saves *)

Module OptionsPageFacts.
Import Js Utils Background UtilsFacts Rules RendererFacts OptionsPage.

Lemma drop_trailing_last P s : last_in P (drop_trailing P s) = false.
Proof.
  induction s as [|c s IH]; [done|]. cbn [drop_trailing].
  destruct (all_in P (String c s)) eqn:Ha; [done|].
  destruct (drop_trailing P s) as [|d t] eqn:Hd.
  - cbn [last_in]. destruct (P c) eqn:Hc; [|done]. cbn [all_in] in Ha. rewrite Hc in Ha.
    cbn [andb] in Ha. clear IH.
    assert (all_in P s = true); [|congruence]. clear Ha.
    induction s as [|e s IH]; [done|]. cbn [drop_trailing] in Hd.
    destruct (all_in P (String e s)); done.
  - by rewrite last_in_cons.
Qed.

Lemma drop_trailing_starts P s : starts_outside P s → starts_outside P (drop_trailing P s).
Proof.
  destruct s as [|c s]; [done|]. cbn [drop_trailing starts_outside]. intros Hc.
  cbn [all_in]. by rewrite Hc.
Qed.

Lemma trim_trimmed s : trimmed (trim s).
Proof.
  unfold trim, trimmed. split; [|apply drop_trailing_last].
  apply drop_trailing_starts, drop_while_starts.
Qed.

Lemma or_else_trimmed s d :
  d ≠ EmptyString → trimmed d →
  or_else (trim s) d ≠ EmptyString ∧ trimmed (or_else (trim s) d).
Proof.
  intros Hd Ht. unfold or_else. pose proof (trim_trimmed s) as Hs.
  destruct (trim s) as [|c t]; [done|]. done.
Qed.

End OptionsPageFacts.

Import Js Utils Background UtilsFacts Rules RendererFacts OptionsPage OptionsPageFacts.

(** Whatever the form holds, the options saved have a padding from 0 to 10,
    from 1 to 10 downloads at a time, a delay from 0 to 10000, and two
    naming rules that are not empty and have no white space at either
    end. *)
Theorem saved_options_are_in_range form :
  0 ≤ fileNameIndexPadding (saveOptions form) ≤ 10
  ∧ 1 ≤ concurrentDownloads (saveOptions form) ≤ 10
  ∧ 0 ≤ delayBetweenDownloads (saveOptions form) ≤ 10000
  ∧ folderNameRule (saveOptions form) ≠ EmptyString
  ∧ trimmed (folderNameRule (saveOptions form))
  ∧ fileNameRule (saveOptions form) ≠ EmptyString
  ∧ trimmed (fileNameRule (saveOptions form)).
Proof.
  cbn [saveOptions fileNameIndexPadding concurrentDownloads delayBetweenDownloads
       folderNameRule fileNameRule pageDefaults].
  split; [lia|]. split; [lia|]. split; [lia|].
  destruct (or_else_trimmed (folderNameRuleInput form) "{album_name}") as [? ?];
    [done|by split|].
  destruct (or_else_trimmed (fileNameRuleInput form) "{index}_{original_name}") as [? ?];
    [done|by split|].
  done.
Qed.

(** A number of the form that is 0 or cannot be read is replaced by the
    default before the clamp: the delay saved is 500 then, and it is 0 only
    for an input below 0; so is the padding. *)
Theorem zero_is_saved_as_the_default form :
  (parseInt (delayBetweenDownloadsInput form) = None
   ∨ parseInt (delayBetweenDownloadsInput form) = Some 0 →
   delayBetweenDownloads (saveOptions form) = 500)
  ∧ (delayBetweenDownloads (saveOptions form) = 0
     ↔ ∃ n, parseInt (delayBetweenDownloadsInput form) = Some n ∧ n < 0)
  ∧ (fileNameIndexPadding (saveOptions form) = 0
     ↔ ∃ n, parseInt (fileNameIndexPaddingInput form) = Some n ∧ n < 0).
Proof.
  cbn [saveOptions fileNameIndexPadding delayBetweenDownloads pageDefaults].
  split; [by intros [-> | ->]|].
  split.
  - destruct (parseInt (delayBetweenDownloadsInput form)) as [n|]; cbn [or_number].
    + destruct (n =? 0) eqn:Hn.
      * apply Z.eqb_eq in Hn. subst n. split; [done|]. intros (n & [= <-] & ?). lia.
      * apply Z.eqb_neq in Hn. split.
        -- intros H. exists n. split; [done|lia].
        -- intros (m & [= <-] & ?). lia.
    + split; [done|]. by intros (n & ? & _).
  - destruct (parseInt (fileNameIndexPaddingInput form)) as [n|]; cbn [or_number].
    + destruct (n =? 0) eqn:Hn.
      * apply Z.eqb_eq in Hn. subst n. split; [done|]. intros (n & [= <-] & ?). lia.
      * apply Z.eqb_neq in Hn. split.
        -- intros H. exists n. split; [done|lia].
        -- intros (m & [= <-] & ?). lia.
    + split; [done|]. by intros (n & ? & _).
Qed.

(** * The photos the scraper returns *)

Module ResolverFacts.
Import Js Utils Background UtilsFacts SanitizerFacts OriginalName Resolver.

Lemma uniquePhotos_elem seen photos p :
  p ∈ uniquePhotos seen photos → p ∈ photos ∧ p_url p ∉ seen.
Proof.
  revert seen. induction photos as [|q photos IH]; intros seen; [by intros ?%elem_of_nil|].
  cbn [uniquePhotos]. destruct (decide (p_url q ∈ seen)) as [Hq|Hq].
  - intros [Hp Hs]%IH. split; [by right|done].
  - intros [->|[Hp Hs]%IH]%elem_of_cons; [split; [by left|done]|].
    split; [by right|]. intros Hin. apply Hs, elem_of_union. by right.
Qed.

Lemma uniquePhotos_NoDup seen photos : NoDup (p_url <$> uniquePhotos seen photos).
Proof.
  revert seen. induction photos as [|q photos IH]; intros seen; [constructor|].
  cbn [uniquePhotos]. destruct (decide (p_url q ∈ seen)) as [Hq|Hq]; [apply IH|].
  cbn [fmap list_fmap]. constructor; [|apply IH].
  intros (p & Hurl & Hp)%list_elem_of_fmap.
  apply uniquePhotos_elem in Hp as [_ Hp]. rewrite <- Hurl in Hp. set_solver.
Qed.

Lemma uniquePhotos_sublist seen photos : uniquePhotos seen photos `sublist_of` photos.
Proof.
  revert seen. induction photos as [|q photos IH]; intros seen; [done|].
  cbn [uniquePhotos]. destruct (decide (p_url q ∈ seen)).
  - by apply sublist_cons.
  - by apply sublist_skip.
Qed.

Lemma uniquePhotos_covers seen photos p :
  p ∈ photos → p_url p ∈ seen ∨ p_url p ∈ p_url <$> uniquePhotos seen photos.
Proof.
  revert seen. induction photos as [|q photos IH]; intros seen; [by intros ?%elem_of_nil|].
  cbn [uniquePhotos]. intros [->|Hp]%elem_of_cons.
  - destruct (decide (p_url q ∈ seen)); [by left|right]. cbn [fmap list_fmap]. by left.
  - destruct (decide (p_url q ∈ seen)) as [Hq|Hq]; [by apply IH|].
    destruct (IH ({[ p_url q ]} ∪ seen) Hp) as [Hin|Hin].
    + apply elem_of_union in Hin as [->%elem_of_singleton|Hin]; [|by left].
      right. cbn [fmap list_fmap]. by left.
    + right. cbn [fmap list_fmap]. by right.
Qed.

End ResolverFacts.

Import Js Utils Background UtilsFacts SanitizerFacts OriginalName Resolver ResolverFacts.

(** The photos the scraper returns are photos of the page from the CDN, in
    the order of the page, no two with the same address, and every address
    of the CDN on the page is the address of one of them. *)
Theorem scraped_photos_are_unique photos :
  NoDup (p_url <$> scraped photos)
  ∧ scraped photos `sublist_of` photos
  ∧ (∀ p, p ∈ scraped photos → from_cdn p = true)
  ∧ (∀ p, p ∈ photos → from_cdn p = true → p_url p ∈ p_url <$> scraped photos).
Proof.
  unfold scraped. split; [apply uniquePhotos_NoDup|]. split.
  - etrans; [apply uniquePhotos_sublist|apply sublist_filter].
  - split.
    + intros p [Hp _]%uniquePhotos_elem. by apply list_elem_of_filter in Hp as [Hp _].
    + intros p Hp Hcdn.
      destruct (uniquePhotos_covers ∅ (filter (fun p => from_cdn p = true) photos) p)
        as [Hin|Hin]; [|set_solver|done].
      by apply list_elem_of_filter.
Qed.

(** The name the scraper gives a photo is made of letters, digits,
    underscores, dots and hyphens; it has a name part of 50 characters at
    most and ends with [.png] or [.jpg]. *)
Theorem scraped_name_is_plain alt currentAlbumId index src :
  all_in is_name_char (scrapedName alt currentAlbumId index src) = true
  ∧ (String.length (scrapedName alt currentAlbumId index src) ≤ 54)%nat
  ∧ (endsWith ".png" (scrapedName alt currentAlbumId index src) = true
     ∨ endsWith ".jpg" (scrapedName alt currentAlbumId index src) = true).
Proof.
  unfold scrapedName.
  set (name := substring0 50 _).
  assert (String.length name ≤ 50)%nat as Hlen.
  { unfold name, substring0. rewrite length_substring0. lia. }
  set (clean := replace_all _ _ name).
  assert (all_in is_name_char clean = true) as Hclean.
  { unfold clean, replace_all. apply replace_from_emitted; [|done].
    intros st c t Hm. unfold m_class in Hm. destruct (is_name_char c); [done|].
    cbn in Hm. by destruct Hm. }
  assert (String.length clean ≤ 50)%nat as Hclen.
  { unfold clean, replace_all. etrans; [apply replace_from_length; simpl; lia|done]. }
  split; [|split].
  - rewrite all_in_app, Hclean. by destruct (includes ".png" src).
  - rewrite str_length_app. destruct (includes ".png" src); simpl; lia.
  - assert (∀ ext, endsWith ext (clean +:+ ext) = true) as Hends.
    { intros ext. unfold endsWith. rewrite str_length_app.
      apply andb_true_iff. split; [apply Nat.leb_le; lia|].
      replace (String.length clean + String.length ext - String.length ext)%nat
        with (String.length clean) by lia.
      clear. induction clean as [|c clean IH]; [apply String.eqb_refl|].
      rewrite append_cons. apply IH. }
    destruct (includes ".png" src); [left|right]; apply Hends.
Qed.
